(** * liquid-dsp: automatic gain control (src/agc/src/agc.c)

    A shallow embedding of the [agc] object of liquid-dsp and the proofs of
    the properties its specification states.

    The C code computes on [float] (IEEE-754 binary32) and, where [conj] is
    called on a [float complex], on [double] (binary64).  Both formats are
    modelled with the Standard Library's executable specification of IEEE
    arithmetic, [SpecFloat], at precision 24/128 and 53/1024, rounding to
    nearest even, every operation rounded to its own type.  The product of
    two complex numbers is the one of the compiler's runtime, C99 Annex G
    with its recovery of infinite results.  The two libm
    functions that IEEE-754 does not pin down, [logf] and [expf], are taken
    as parameters of the development; [sqrtf] is the correctly rounded
    square root.

    A [void] function that mutates [*_q] is a function from the old record
    to the new one.  A function that may call [exit(-1)] returns a
    [result]. *)

From Stdlib Require Import ZArith Bool List Lia.
From Stdlib Require Import Floats.SpecFloat.
Import ListNotations.

Local Open Scope Z_scope.

(** ** binary32 and binary64 arithmetic *)

(** [T] of the source: [#define T float]. *)
Definition T : Type := spec_float.

(** binary32, the format of [float]. *)
Definition prec32 : Z := 24.
Definition emax32 : Z := 128.

Definition fadd : T -> T -> T := SFadd prec32 emax32.
Definition fsub : T -> T -> T := SFsub prec32 emax32.
Definition fmul : T -> T -> T := SFmul prec32 emax32.
Definition fdiv : T -> T -> T := SFdiv prec32 emax32.
Definition fsqrt : T -> T := SFsqrt prec32 emax32.
Definition flt : T -> T -> bool := SFltb.
Definition fle : T -> T -> bool := SFleb.

(** Conversion of an integer constant, and of a decimal constant [n/d]
    whose numerator and denominator are both representable, so that the
    one division rounds the exact quotient once. *)
Definition float_of_Z (z : Z) : T := binary_normalize prec32 emax32 z 0 false.
Definition float_of_ratio (n d : Z) : T := fdiv (float_of_Z n) (float_of_Z d).

(** Conversion from the wider format (C's conversion of a [double] to
    [float]). *)
Definition float_of_double (x : spec_float) : T :=
  match x with
  | S754_finite s m e => binary_round prec32 emax32 s m e
  | _ => x
  end.

(** binary64, the format of [double]. *)
Definition prec64 : Z := 53.
Definition emax64 : Z := 1024.

Definition dadd : spec_float -> spec_float -> spec_float := SFadd prec64 emax64.
Definition dsub : spec_float -> spec_float -> spec_float := SFsub prec64 emax64.
Definition dmul : spec_float -> spec_float -> spec_float := SFmul prec64 emax64.

Definition double_of_Z (z : Z) : spec_float := binary_normalize prec64 emax64 z 0 false.

(** Promotion of a [float] to [double]. *)
Definition double_of_float (x : T) : spec_float :=
  match x with
  | S754_finite s m e => binary_round prec64 emax64 s m e
  | _ => x
  end.

Definition is_nan (x : spec_float) : bool :=
  match x with S754_nan => true | _ => false end.

Definition is_zero (x : spec_float) : bool :=
  match x with S754_zero _ => true | _ => false end.

(** The floating constants of the source. *)
Definition f_0 : T := Eval vm_compute in float_of_Z 0.          (* 0.0f, 0 *)
Definition f_1 : T := Eval vm_compute in float_of_Z 1.          (* 1.0f, 1 *)
Definition f_zeta : T := Eval vm_compute in float_of_ratio 1 10.      (* 0.1f *)
Definition f_1em6 : T := Eval vm_compute in float_of_ratio 1 1000000. (* 1e-6f *)
Definition f_1ep6 : T := Eval vm_compute in float_of_Z 1000000.       (* 1e+6f *)
Definition d_1 : spec_float := Eval vm_compute in double_of_Z 1.       (* 1.0 *)
Definition d_0 : spec_float := Eval vm_compute in double_of_Z 0.       (* 0.0 *)

(** ** Complex numbers *)

(** [TC] of the source: [#define TC float complex]; the same record holds a
    [double complex]. *)
Record TC : Type := mkC { re : spec_float; im : spec_float }.

Definition dc_of_fc (z : TC) : TC := mkC (double_of_float (re z)) (double_of_float (im z)).
Definition fc_of_dc (z : TC) : TC := mkC (float_of_double (re z)) (float_of_double (im z)).

(** [conj] works on [double complex], [conjf] on [float complex]. *)
Definition conj (z : TC) : TC := mkC (re z) (SFopp (im z)).
Definition conjf (z : TC) : TC := mkC (re z) (SFopp (im z)).
Definition crealf (z : TC) : T := re z.

(** *** The product of two complex numbers

    C's [*] on complex operands, as the compiler's runtime computes it
    (libgcc's [__muldc3] for [double complex], [__mulsc3] for
    [float complex]; the code is that of C99 Annex G.5.1): the four
    products and the two sums of [(a+ib)(c+id) = (ac-bd) + i(ad+bc)], each
    rounded, none fused; and, when both parts come out NaN, the recovery
    of an infinite result. *)

Definition is_inf (x : spec_float) : bool :=
  match x with S754_infinity _ => true | _ => false end.

(** [copysign(mag, y)].  A NaN of [spec_float] has no sign bit; [ns] is the
    sign bit of [y] when [y] is a NaN. *)
Definition sign_bit (ns : bool) (y : spec_float) : bool :=
  match y with
  | S754_zero s | S754_infinity s | S754_finite s _ _ => s
  | S754_nan => ns
  end.

Definition copysign (ns : bool) (mag y : spec_float) : spec_float :=
  if sign_bit ns y then SFopp (SFabs mag) else SFabs mag.

(** The product in the format [prec], [emax].  [sa], [sb], [sc], [sd] are
    the sign bits of the four operands where they are NaN. *)
Definition cmul_annex_g (prec emax : Z) (sa sb sc sd : bool) (z w : TC) : TC :=
  let mul := SFmul prec emax in
  let one := binary_normalize prec emax 1 0 false in
  let zero := S754_zero false in
  let a := re z in
  let b := im z in
  let c := re w in
  let d := im w in
  let ac := mul a c in
  let bd := mul b d in
  let ad := mul a d in
  let bc := mul b c in
  let x := SFsub prec emax ac bd in
  let y := SFadd prec emax ad bc in
  if is_nan x && is_nan y then
    (* Recover infinities that computed as NaN + iNaN. *)
    let '(a, b, c, d, recalc) :=
      if is_inf a || is_inf b then
        (* z is infinite: box the infinity, change NaNs in the other
           factor to 0 *)
        (copysign sa (if is_inf a then one else zero) a,
         copysign sb (if is_inf b then one else zero) b,
         (if is_nan c then copysign sc zero c else c),
         (if is_nan d then copysign sd zero d else d),
         true)
      else (a, b, c, d, false) in
    let '(a, b, c, d, recalc) :=
      if is_inf c || is_inf d then
        (* w is infinite *)
        ((if is_nan a then copysign sa zero a else a),
         (if is_nan b then copysign sb zero b else b),
         copysign sc (if is_inf c then one else zero) c,
         copysign sd (if is_inf d then one else zero) d,
         true)
      else (a, b, c, d, recalc) in
    let '(a, b, c, d, recalc) :=
      if negb recalc && (is_inf ac || is_inf bd || is_inf ad || is_inf bc) then
        (* recover infinities from overflow by changing NaNs to 0 *)
        ((if is_nan a then copysign sa zero a else a),
         (if is_nan b then copysign sb zero b else b),
         (if is_nan c then copysign sc zero c else c),
         (if is_nan d then copysign sd zero d else d),
         true)
      else (a, b, c, d, recalc) in
    if recalc then
      mkC (mul (S754_infinity false) (SFsub prec emax (mul a c) (mul b d)))
          (mul (S754_infinity false) (SFadd prec emax (mul a d) (mul b c)))
    else mkC x y
  else mkC x y.

(** [double complex] and [float complex] products.  The sign bits of NaN
    operands are read as 0 here; [energy_nan_sign] and [energyf_nan_sign]
    below show that the real part of [_x * conj(_x)], the one value the
    source reads, is the same for every sign bit. *)
Definition cmul (x y : TC) : TC :=
  cmul_annex_g prec64 emax64 false false false false x y.

Definition cmulf (x y : TC) : TC :=
  cmul_annex_g prec32 emax32 false false false false x y.

(** Product of a [float complex] and a [float]: both parts are scaled. *)
Definition cscale (x : TC) (k : T) : TC := mkC (fmul (re x) k) (fmul (im x) k).

(** ** The object *)

(** [liquid_agc_type], declared in liquid.h. *)
Inductive liquid_agc_type : Set :=
  | LIQUID_AGC_DEFAULT
  | LIQUID_AGC_LOG
  | LIQUID_AGC_EXP.

(** [struct agc_s]. *)
Record agc_s : Type := mk_agc {
  type : liquid_agc_type;
  e_target : T;     (* target signal energy *)
  g : T;            (* current gain value *)
  g_min : T;        (* minimum gain value *)
  g_max : T;        (* maximum gain value *)
  BT : T;           (* bandwidth-time constant *)
  alpha : T;        (* feed-back gain *)
  beta : T;         (* feed-forward gain *)
  e : T;            (* instantaneous estimated signal energy *)
  e_hat : T;        (* filtered (average) energy estimate *)
  e_prime : T;      (* previous energy estimate *)
  is_locked : Z     (* is agc locked? a C int, non-zero when locked *)
}.

(** Assignments [_q->f = v]. *)
Definition set_type (q : agc_s) (v : liquid_agc_type) : agc_s :=
  mk_agc v (e_target q) (g q) (g_min q) (g_max q) (BT q) (alpha q) (beta q)
         (e q) (e_hat q) (e_prime q) (is_locked q).
Definition set_e_target (q : agc_s) (v : T) : agc_s :=
  mk_agc (type q) v (g q) (g_min q) (g_max q) (BT q) (alpha q) (beta q)
         (e q) (e_hat q) (e_prime q) (is_locked q).
Definition set_g (q : agc_s) (v : T) : agc_s :=
  mk_agc (type q) (e_target q) v (g_min q) (g_max q) (BT q) (alpha q) (beta q)
         (e q) (e_hat q) (e_prime q) (is_locked q).
Definition set_g_min (q : agc_s) (v : T) : agc_s :=
  mk_agc (type q) (e_target q) (g q) v (g_max q) (BT q) (alpha q) (beta q)
         (e q) (e_hat q) (e_prime q) (is_locked q).
Definition set_g_max (q : agc_s) (v : T) : agc_s :=
  mk_agc (type q) (e_target q) (g q) (g_min q) v (BT q) (alpha q) (beta q)
         (e q) (e_hat q) (e_prime q) (is_locked q).
Definition set_BT (q : agc_s) (v : T) : agc_s :=
  mk_agc (type q) (e_target q) (g q) (g_min q) (g_max q) v (alpha q) (beta q)
         (e q) (e_hat q) (e_prime q) (is_locked q).
Definition set_alpha (q : agc_s) (v : T) : agc_s :=
  mk_agc (type q) (e_target q) (g q) (g_min q) (g_max q) (BT q) v (beta q)
         (e q) (e_hat q) (e_prime q) (is_locked q).
Definition set_beta (q : agc_s) (v : T) : agc_s :=
  mk_agc (type q) (e_target q) (g q) (g_min q) (g_max q) (BT q) (alpha q) v
         (e q) (e_hat q) (e_prime q) (is_locked q).
Definition set_e (q : agc_s) (v : T) : agc_s :=
  mk_agc (type q) (e_target q) (g q) (g_min q) (g_max q) (BT q) (alpha q) (beta q)
         v (e_hat q) (e_prime q) (is_locked q).
Definition set_e_hat (q : agc_s) (v : T) : agc_s :=
  mk_agc (type q) (e_target q) (g q) (g_min q) (g_max q) (BT q) (alpha q) (beta q)
         (e q) v (e_prime q) (is_locked q).
Definition set_e_prime (q : agc_s) (v : T) : agc_s :=
  mk_agc (type q) (e_target q) (g q) (g_min q) (g_max q) (BT q) (alpha q) (beta q)
         (e q) (e_hat q) v (is_locked q).
Definition set_is_locked (q : agc_s) (v : Z) : agc_s :=
  mk_agc (type q) (e_target q) (g q) (g_min q) (g_max q) (BT q) (alpha q) (beta q)
         (e q) (e_hat q) (e_prime q) v.

(** A call either returns, or prints its message on stderr and ends the
    process with [exit(status)]; [q] is then the object as the call leaves
    it. *)
Inductive result (A : Type) : Type :=
  | Done (a : A)
  | Exit (status : Z) (q : agc_s).
Arguments Done {A} a.
Arguments Exit {A} status q.

Definition bind {A B : Type} (r : result A) (k : A -> result B) : result B :=
  match r with
  | Done a => k a
  | Exit s q => Exit s q
  end.

Notation "x <- r ;; k" := (bind r (fun x => k))
  (at level 61, r at next level, right associativity).

(** The error the specification calls [InvalidParameter]: the three setters
    report it with [exit(-1)], before they have stored anything. *)
Definition InvalidParameter {A : Type} (q : agc_s) : result A := Exit (-1) q.

(** ** Public operations *)

Definition agc_unlock (q : agc_s) : agc_s := set_is_locked q 0.

Definition agc_lock (q : agc_s) : agc_s := set_is_locked q 1.

Definition agc_reset (q : agc_s) : agc_s :=
  let q := set_e_prime q f_1 in
  let q := set_e_hat q f_1 in
  agc_unlock q.

Definition agc_set_target (q : agc_s) (_e_target : T) : result agc_s :=
  if fle _e_target f_0 then InvalidParameter q
  else Done (set_e_target q _e_target).

Definition agc_set_gain_limits (q : agc_s) (_g_min _g_max : T) : result agc_s :=
  if flt _g_max _g_min then InvalidParameter q
  else
    let q := set_g_min q _g_min in
    Done (set_g_max q _g_max).

Definition agc_set_bandwidth (q : agc_s) (_BT : T) : result agc_s :=
  if flt _BT f_0 then InvalidParameter q
  else if flt f_1 _BT then InvalidParameter q
  else
    let q := set_BT q _BT in
    let q := set_alpha q (fsqrt (BT q)) in
    Done (set_beta q (fsub f_1 (alpha q))).

(** [agc_create]: [mem] is the block [malloc] returns, whose content is
    indeterminate; the field [e] keeps it.  The [double] constants 1.0 and
    0.0 are converted to the [float] parameters of the two setters. *)
Definition agc_create (mem : agc_s) : result agc_s :=
  let q := set_type mem LIQUID_AGC_LOG in
  let q := set_e_prime q f_1 in
  let q := set_e_hat q f_1 in
  let q := set_g q f_1 in
  let q := set_g_min q f_1em6 in
  let q := set_g_max q f_1ep6 in
  q <- agc_set_target q (float_of_double d_1) ;;
  q <- agc_set_bandwidth q (float_of_double d_0) ;;
  Done (set_is_locked q 0).

Definition agc_get_signal_level (q : agc_s) : T := fdiv (e_target q) (g q).

Definition agc_get_gain (q : agc_s) : T := g q.

(** ** Internal methods *)

Definition agc_limit_gain (q : agc_s) : agc_s :=
  if flt (g_max q) (g q) then set_g q (g_max q)
  else if flt (g q) (g_min q) then set_g q (g_min q)
  else q.

Section Libm.

(** [logf] and [expf] of the C library. *)
Variable logf : T -> T.
Variable expf : T -> T.

Definition agc_estimate_gain_default (q : agc_s) (_x : TC) : agc_s :=
  let zeta := f_zeta in
  let q := set_e q (crealf (fc_of_dc (cmul (dc_of_fc _x) (conj (dc_of_fc _x))))) in
  let q := set_e_prime q (fadd (fmul (e q) zeta)
                                  (fmul (e_prime q) (fsub f_1 zeta))) in
  let q := set_e_hat q (fsqrt (e_prime q)) in
  (* ideal gain *)
  let g_ideal := fdiv (e_target q) (e_hat q) in
  (* accumulated gain *)
  set_g q (fadd (fmul (beta q) (g q)) (fmul (alpha q) g_ideal)).

Definition agc_estimate_gain_log (q : agc_s) (_x : TC) : agc_s :=
  let zeta := f_zeta in
  let q := set_e q (crealf (fc_of_dc (cmul (dc_of_fc _x) (conj (dc_of_fc _x))))) in
  let q := set_e_prime q (fadd (fmul (e q) zeta)
                                  (fmul (e_prime q) (fsub f_1 zeta))) in
  let q := set_e_hat q (fsqrt (e_prime q)) in
  (* loop filter : compute log *)
  let gain_ideal := fdiv (e_target q) (e_hat q) in
  let log_gain_error := fsub (logf gain_ideal) (logf (g q)) in
  (* adjust gain proportional to log of error *)
  set_g q (fmul (g q) (expf (fmul (alpha q) log_gain_error))).

Definition agc_estimate_gain_exp (q : agc_s) (_x : TC) : agc_s :=
  (* estimate of instantaneous input signal level *)
  let q := set_e q (crealf (cmulf _x (conjf _x))) in
  let q := set_e_hat q (fsqrt (e q)) in
  (* estimate of output signal level *)
  let e_out := fmul (e_hat q) (g q) in
  if flt (e_target q) e_out then
    set_g q (fmul (g q)
               (fsub f_1 (fdiv (fmul (beta q) (fsub e_out (e_target q))) e_out)))
  else
    set_g q (fmul (g q)
               (fadd f_1 (fdiv (fmul (beta q) (fsub (e_target q) e_out))
                                     (e_target q)))).

(** The gain-update law [agc_execute] selects with its [switch]; the three
    enumerators are the only values of [liquid_agc_type], so the [default:]
    branch of the source is not reached. *)
Definition agc_estimate_gain (q : agc_s) (_x : TC) : agc_s :=
  match type q with
  | LIQUID_AGC_DEFAULT => agc_estimate_gain_default q _x
  | LIQUID_AGC_LOG => agc_estimate_gain_log q _x
  | LIQUID_AGC_EXP => agc_estimate_gain_exp q _x
  end.

(** [agc_execute] returns the new state and the sample stored in [*_y]. *)
Definition agc_execute (q : agc_s) (_x : TC) : agc_s * TC :=
  if negb (is_locked q =? 0) then (q, cscale _x (g q))
  else
    let q := agc_estimate_gain q _x in
    (* limit gain *)
    let q := agc_limit_gain q in
    (* apply gain to input *)
    (q, cscale _x (g q)).

End Libm.

(** ** Execution with the divisors checked

    The same code with every [/] guarded: a division whose divisor is a
    zero stops the computation.  It is the reference against which
    "[agc_execute] never divides by zero" is stated. *)

Definition fdiv_chk (a b : T) : option T :=
  if is_zero b then None else Some (fdiv a b).

Section LibmChecked.

Variable logf : T -> T.
Variable expf : T -> T.

Definition agc_estimate_gain_default_chk (q : agc_s) (_x : TC) : option agc_s :=
  let zeta := f_zeta in
  let q := set_e q (crealf (fc_of_dc (cmul (dc_of_fc _x) (conj (dc_of_fc _x))))) in
  let q := set_e_prime q (fadd (fmul (e q) zeta)
                               (fmul (e_prime q) (fsub f_1 zeta))) in
  let q := set_e_hat q (fsqrt (e_prime q)) in
  match fdiv_chk (e_target q) (e_hat q) with
  | None => None
  | Some g_ideal =>
      Some (set_g q (fadd (fmul (beta q) (g q)) (fmul (alpha q) g_ideal)))
  end.

Definition agc_estimate_gain_log_chk (q : agc_s) (_x : TC) : option agc_s :=
  let zeta := f_zeta in
  let q := set_e q (crealf (fc_of_dc (cmul (dc_of_fc _x) (conj (dc_of_fc _x))))) in
  let q := set_e_prime q (fadd (fmul (e q) zeta)
                               (fmul (e_prime q) (fsub f_1 zeta))) in
  let q := set_e_hat q (fsqrt (e_prime q)) in
  match fdiv_chk (e_target q) (e_hat q) with
  | None => None
  | Some gain_ideal =>
      let log_gain_error := fsub (logf gain_ideal) (logf (g q)) in
      Some (set_g q (fmul (g q) (expf (fmul (alpha q) log_gain_error))))
  end.

Definition agc_estimate_gain_exp_chk (q : agc_s) (_x : TC) : option agc_s :=
  let q := set_e q (crealf (cmulf _x (conjf _x))) in
  let q := set_e_hat q (fsqrt (e q)) in
  let e_out := fmul (e_hat q) (g q) in
  if flt (e_target q) e_out then
    match fdiv_chk (fmul (beta q) (fsub e_out (e_target q))) e_out with
    | None => None
    | Some r => Some (set_g q (fmul (g q) (fsub f_1 r)))
    end
  else
    match fdiv_chk (fmul (beta q) (fsub (e_target q) e_out)) (e_target q) with
    | None => None
    | Some r => Some (set_g q (fmul (g q) (fadd f_1 r)))
    end.

Definition agc_estimate_gain_chk (q : agc_s) (_x : TC) : option agc_s :=
  match type q with
  | LIQUID_AGC_DEFAULT => agc_estimate_gain_default_chk q _x
  | LIQUID_AGC_LOG => agc_estimate_gain_log_chk q _x
  | LIQUID_AGC_EXP => agc_estimate_gain_exp_chk q _x
  end.

Definition agc_execute_chk (q : agc_s) (_x : TC) : option (agc_s * TC) :=
  if negb (is_locked q =? 0) then Some (q, cscale _x (g q))
  else
    match agc_estimate_gain_chk q _x with
    | None => None
    | Some q =>
        let q := agc_limit_gain q in
        Some (q, cscale _x (g q))
    end.

(** ** Sequences of calls on one object *)

Inductive agc_call : Type :=
  | call_reset
  | call_set_target (_e_target : T)
  | call_set_gain_limits (_g_min _g_max : T)
  | call_set_bandwidth (_BT : T)
  | call_lock
  | call_unlock
  | call_execute (_x : TC).

Definition agc_step (q : agc_s) (c : agc_call) : result agc_s :=
  match c with
  | call_reset => Done (agc_reset q)
  | call_set_target t => agc_set_target q t
  | call_set_gain_limits a b => agc_set_gain_limits q a b
  | call_set_bandwidth b => agc_set_bandwidth q b
  | call_lock => Done (agc_lock q)
  | call_unlock => Done (agc_unlock q)
  | call_execute x => Done (fst (agc_execute logf expf q x))
  end.

Fixpoint agc_run (q : agc_s) (cs : list agc_call) : result agc_s :=
  match cs with
  | [] => Done q
  | c :: cs => q' <- agc_step q c ;; agc_run q' cs
  end.

End LibmChecked.


(** ** The specification's vocabulary *)

(** The constants 0.1, 0.9 and 0.5 as [float]. *)
Definition f_0_1 : T := Eval vm_compute in float_of_ratio 1 10.
Definition f_0_9 : T := Eval vm_compute in float_of_ratio 9 10.
Definition f_0_5 : T := Eval vm_compute in float_of_ratio 1 2.

(** energy(x) = Re(x * conj(x)), with C's complex product.  The Default
    and Logarithmic laws call [conj], so the product is formed in
    [double] and converted; the Exponential law calls [conjf] and stays
    in [float]. *)
Definition energy (x : TC) : T :=
  crealf (fc_of_dc (cmul (dc_of_fc x) (conj (dc_of_fc x)))).

Definition energyf (x : TC) : T :=
  crealf (cmulf x (conjf x)).

(** The same with any sign bits on the NaN operands. *)
Definition energy_ns (sa sb sc sd : bool) (x : TC) : T :=
  crealf (fc_of_dc (cmul_annex_g prec64 emax64 sa sb sc sd
                                 (dc_of_fc x) (conj (dc_of_fc x)))).

Definition energyf_ns (sa sb sc sd : bool) (x : TC) : T :=
  crealf (cmul_annex_g prec32 emax32 sa sb sc sd x (conjf x)).

(** The sum of the two squares, a^2 + b^2, in the format [prec], [emax];
    and what the conjugate product makes of it: +infinity when one part
    is a NaN and the square of the other is infinite. *)
Definition sum_of_squares (prec emax : Z) (a b : spec_float) : spec_float :=
  SFadd prec emax (SFmul prec emax a a) (SFmul prec emax b b).

Definition conj_product_re (prec emax : Z) (a b : spec_float) : spec_float :=
  if is_nan a then
    if is_inf (SFmul prec emax b b) then S754_infinity false else S754_nan
  else if is_nan b then
    if is_inf (SFmul prec emax a a) then S754_infinity false else S754_nan
  else sum_of_squares prec emax a b.

(** gain clamped to [lo, hi]. *)
Definition clamp (lo hi v : T) : T :=
  if flt hi v then hi else if flt v lo then lo else v.

(** g_min <= g <= g_max. *)
Definition in_limits (q : agc_s) : bool :=
  fle (g_min q) (g q) && fle (g q) (g_max q).

(** A strictly positive [float]: +infinity, or a positive finite number,
    whose exponent field is never below that of the smallest subnormal. *)
Definition is_pos (x : T) : bool :=
  match x with
  | S754_infinity false => true
  | S754_finite false _ ex => emin prec32 emax32 <=? ex
  | _ => false
  end.

Definition pos_or_nan (x : T) : bool := is_pos x || is_nan x.

(** What every call keeps: the filter memory [e_prime] is positive or NaN,
    and the target is not [<= 0] (it is positive or NaN). *)
Definition agc_inv (q : agc_s) : bool :=
  pos_or_nan (e_prime q) && negb (fle (e_target q) f_0).

(** A sample, and a call, without NaN. *)
Definition is_number (x : TC) : bool :=
  negb (is_nan (re x)) && negb (is_nan (im x)).

Definition call_is_number (c : agc_call) : bool :=
  match c with
  | call_execute x => is_number x
  | _ => true
  end.

(** The object after [agc_execute] on each sample of a run. *)
Definition agc_execute_all (logf expf : T -> T) (q : agc_s) (xs : list TC) : agc_s :=
  fold_left (fun s x => fst (agc_execute logf expf s x)) xs q.

(** ** Classes of floating-point values *)

(** [x] is not a NaN and its sign bit is [s]. *)
Definition has_sign (s : bool) (x : spec_float) : Prop :=
  match x with
  | S754_zero t | S754_infinity t | S754_finite t _ _ => t = s
  | S754_nan => False
  end.

(** What rounding a non-negative mantissa with sign [s] returns: a zero, an
    infinity or a finite number of that sign, with an exponent field of at
    least [emin]. *)
Definition rounded (emin : Z) (s : bool) (x : spec_float) : Prop :=
  match x with
  | S754_zero t | S754_infinity t => t = s
  | S754_finite t _ ex => t = s /\ emin <= ex
  | S754_nan => False
  end.

(** The same without the zeros. *)
Definition rounded_nz (emin : Z) (s : bool) (x : spec_float) : Prop :=
  match x with
  | S754_infinity t => t = s
  | S754_finite t _ ex => t = s /\ emin <= ex
  | _ => False
  end.

(** ** Concrete objects and samples used in the examples *)

(** A block of memory as [malloc] may return it. *)
Definition mem0 : agc_s :=
  mk_agc LIQUID_AGC_EXP S754_nan S754_nan S754_nan S754_nan S754_nan S754_nan
         S754_nan S754_nan S754_nan S754_nan 7.

(** The object [agc_create] builds in [mem0]. *)
Definition q_created : agc_s :=
  mk_agc LIQUID_AGC_LOG f_1 f_1 f_1em6 f_1ep6 f_0 f_0 f_1 S754_nan f_1 f_1 0.

Definition f_2 : T := Eval vm_compute in float_of_Z 2.
Definition f_3 : T := Eval vm_compute in float_of_Z 3.
Definition f_4 : T := Eval vm_compute in float_of_Z 4.
Definition f_10 : T := Eval vm_compute in float_of_Z 10.
Definition f_m1 : T := Eval vm_compute in float_of_Z (-1).
Definition f_1_5 : T := Eval vm_compute in float_of_ratio 3 2.
Definition f_m0_1 : T := Eval vm_compute in float_of_ratio (-1) 10.

Definition x_0 : TC := mkC f_0 f_0.          (* 0 *)
Definition x_3_4i : TC := mkC f_3 f_4.       (* 3+4i *)
Definition x_nan : TC := mkC S754_nan f_0.   (* NaN + 0i *)
Definition x_inf_nan : TC := mkC (S754_infinity false) S754_nan.   (* inf + i NaN *)

(** The object after [agc_set_bandwidth(q, 0.5f)], under each law. *)
Definition q_half (ty : liquid_agc_type) : agc_s :=
  mk_agc ty f_1 f_1 f_1em6 f_1ep6 f_0_5
         (S754_finite false 11863283 (-24))   (* alpha = 0.70710677 *)
         (S754_finite false 9827866 (-25))    (* beta = 0.29289323 *)
         S754_nan f_1 f_1 0.

(** The object after [agc_set_gain_limits(q, 2, 3)] and [agc_lock(q)]. *)
Definition q_locked_2_3 : agc_s :=
  mk_agc LIQUID_AGC_LOG f_1 f_1 f_2 f_3 f_0 f_0 f_1 S754_nan f_1 f_1 1.

(** Stand-ins for [logf] and [expf] where an example has to name some
    function.  They return what the C library returns where that is exact,
    logf(1) = 0 and expf(0) = 1, and their argument elsewhere. *)
Definition logf0 (x : T) : T :=
  match SFcompare x f_1 with Some Eq => f_0 | _ => x end.
Definition expf0 (x : T) : T :=
  if is_zero x then f_1 else x.

(** Stand-ins that return the [float] nearest to the logarithm and to the
    exponential at the two arguments the Logarithmic law meets on the
    sample 3+4i after [agc_set_bandwidth(q, 0.5f)],
    ln(0.54232615) = -0.6118877 and exp(-0.43267059) = 0.6487746, and are
    [logf0] and [expf0] elsewhere. *)
Definition logf1 (x : T) : T :=
  match SFcompare x (S754_finite false 9098723 (-24)) with
  | Some Eq => S754_finite true 10265772 (-24)
  | _ => logf0 x
  end.
Definition expf1 (x : T) : T :=
  match SFcompare x (S754_finite true 14517994 (-25)) with
  | Some Eq => S754_finite false 10884631 (-24)
  | _ => expf0 x
  end.

(** ** Vocabulary of the further properties *)

(** -x and i x. *)
Definition cneg (x : TC) : TC := mkC (SFopp (re x)) (SFopp (im x)).
Definition cmul_i (x : TC) : TC := mkC (SFopp (im x)) (re x).

(** +infinity or NaN. *)
Definition is_saturated (x : T) : bool :=
  match x with
  | S754_infinity false | S754_nan => true
  | _ => false
  end.

Definition call_is_reset (c : agc_call) : bool :=
  match c with
  | call_reset => true
  | _ => false
  end.

(** What the setters and [agc_create] establish on the configuration
    fields. *)
Definition agc_config_ok (q : agc_s) : Prop :=
  fle (e_target q) f_0 = false /\
  flt (g_max q) (g_min q) = false /\
  flt (BT q) f_0 = false /\ flt f_1 (BT q) = false /\
  alpha q = fsqrt (BT q) /\ beta q = fsub f_1 (alpha q).

(** 2^64, whose square overflows [float]. *)
Definition f_2p64 : T := Eval vm_compute in float_of_Z (2 ^ 64).
Definition x_2p64 : TC := mkC f_2p64 f_0.

(** 2^64 + i NaN. *)
Definition x_2p64_nan : TC := mkC f_2p64 S754_nan.

(** A [float] in [0, 1] as rounding leaves it: a zero, 1.0f, or a
    positive number below 1 (mantissa below [2^-ex]). *)
Definition unit_float (x : T) : Prop :=
  match x with
  | S754_zero _ => True
  | S754_finite false m ex => (ex <= -24 /\ Z.pos m < 2 ^ (- ex)) \/ x = f_1
  | _ => False
  end.

(** * Proofs *)

(** The arithmetic stays folded under [simpl]. *)
Arguments fadd : simpl never.
Arguments fsub : simpl never.
Arguments fmul : simpl never.
Arguments fdiv : simpl never.
Arguments fsqrt : simpl never.
Arguments flt : simpl never.
Arguments fle : simpl never.
Arguments energy : simpl never.
Arguments energyf : simpl never.
Arguments float_of_double : simpl never.
Arguments double_of_float : simpl never.
Arguments dadd : simpl never.
Arguments dsub : simpl never.
Arguments dmul : simpl never.

(** Reads the fields of a record built by assignments. *)
Ltac fields :=
  unfold set_type, set_e_target, set_g, set_g_min, set_g_max, set_BT, set_alpha,
    set_beta, set_e, set_e_hat, set_e_prime, set_is_locked;
  cbn [type e_target g g_min g_max BT alpha beta e e_hat e_prime is_locked
       re im fst snd].

(** ** Comparisons *)

Lemma SFcompare_swap (x y : spec_float) :
  SFcompare y x = option_map CompOpp (SFcompare x y).
Proof.
  destruct x as [sx|sx| |sx mx ex], y as [sy|sy| |sy my ey]; simpl;
    try destruct sx; try destruct sy; try reflexivity;
    rewrite (Z.compare_antisym ex ey); destruct (ex ?= ey); simpl;
    try reflexivity;
    change (Pos.compare_cont Eq my mx) with (Pos.compare my mx);
    change (Pos.compare_cont Eq mx my) with (Pos.compare mx my);
    rewrite (Pos.compare_antisym mx my); reflexivity.
Qed.

Lemma flt_not_fle (x y : T) : flt x y = true -> fle y x = false.
Proof.
  unfold flt, fle, SFltb, SFleb. rewrite (SFcompare_swap x y).
  destruct (SFcompare x y) as [[]|]; simpl; congruence.
Qed.

Lemma fle_not_flt (x y : T) : fle x y = true -> flt y x = false.
Proof.
  unfold flt, fle, SFltb, SFleb. rewrite (SFcompare_swap x y).
  destruct (SFcompare x y) as [[]|]; simpl; congruence.
Qed.

Lemma flt_fle (x y : T) : flt x y = true -> fle x y = true.
Proof.
  unfold flt, fle, SFltb, SFleb.
  destruct (SFcompare x y) as [[]|]; simpl; congruence.
Qed.

Lemma flt_irrefl (x : T) : flt x x = false.
Proof.
  destruct (flt x x) eqn:H; [|reflexivity].
  pose proof (flt_not_fle _ _ H) as H1. apply flt_fle in H. congruence.
Qed.

Lemma SFcompare_nan_l (x y : spec_float) : is_nan x = true -> SFcompare x y = None.
Proof. destruct x; simpl; try discriminate. reflexivity. Qed.

Lemma SFcompare_nan_r (x y : spec_float) : is_nan y = true -> SFcompare x y = None.
Proof. destruct y; simpl; try discriminate. destruct x; reflexivity. Qed.

Lemma SFcompare_number (x y : spec_float) :
  is_nan x = false -> is_nan y = false -> exists c, SFcompare x y = Some c.
Proof.
  destruct x, y; simpl; try discriminate; intros _ _; eexists; reflexivity.
Qed.

Lemma fle_number_l (x y : T) : fle x y = true -> is_nan x = false.
Proof.
  unfold fle, SFleb. destruct x; simpl; try reflexivity. discriminate.
Qed.

Lemma fle_number_r (x y : T) : fle x y = true -> is_nan y = false.
Proof.
  unfold fle, SFleb. destruct y; simpl; try reflexivity.
  destruct x; discriminate.
Qed.

Lemma fle_refl (x : T) : is_nan x = false -> fle x x = true.
Proof.
  intros Hx. destruct (SFcompare_number x x Hx Hx) as [c Hc].
  pose proof (SFcompare_swap x x) as Hs. rewrite Hc in Hs. simpl in Hs.
  unfold fle, SFleb. rewrite Hc.
  destruct c; try reflexivity; discriminate.
Qed.

(** Neither [x < y] nor a NaN: then [y <= x]. *)
Lemma not_flt_fle (x y : T) :
  is_nan x = false -> is_nan y = false -> flt x y = false -> fle y x = true.
Proof.
  intros Hx Hy. destruct (SFcompare_number x y Hx Hy) as [c Hc].
  unfold flt, fle, SFltb, SFleb. rewrite (SFcompare_swap x y), Hc.
  destruct c; simpl; congruence.
Qed.

(** A zero compares as [+0], whatever its sign. *)
Lemma SFcompare_zero_r (x z : spec_float) :
  is_zero z = true -> SFcompare x z = SFcompare x f_0.
Proof. destruct z; simpl; try discriminate. destruct x; reflexivity. Qed.

Lemma fmul_comm (x y : T) : fmul x y = fmul y x.
Proof.
  unfold fmul.
  destruct x as [sx|sx| |sx mx ex], y as [sy|sy| |sy my ey]; simpl;
    rewrite ?(xorb_comm sy sx); try reflexivity.
  now rewrite (Pos.mul_comm my mx), (Z.add_comm ey ex).
Qed.

(** The constants and the sample parts used below are values of binary32. *)
Example constants_valid :
  forallb (valid_binary prec32 emax32)
    [f_0; f_1; f_zeta; f_1em6; f_1ep6; f_0_1; f_0_9; f_0_5; f_2; f_3; f_4;
     f_10; f_m1; f_1_5; f_m0_1; alpha (q_half LIQUID_AGC_LOG);
     beta (q_half LIQUID_AGC_LOG); S754_nan] = true.
Proof. reflexivity. Qed.

(** ** Construction *)

Lemma agc_create_mem0 : agc_create mem0 = Done q_created.
Proof. reflexivity. Qed.

(** [agc_create] initialises every field but [e], and never exits. *)
Lemma agc_create_done (mem : agc_s) :
  agc_create mem =
  Done (mk_agc LIQUID_AGC_LOG f_1 f_1 f_1em6 f_1ep6 f_0 f_0 f_1 (e mem) f_1 f_1 0).
Proof. reflexivity. Qed.

(** ** The locked path of [agc_execute] *)

Section Locked.

Variable logf expf : T -> T.

Lemma agc_execute_all_locked (q : agc_s) (xs : list TC) :
  is_locked q <> 0 -> agc_execute_all logf expf q xs = q.
Proof.
  intros Hl. unfold agc_execute_all. induction xs as [|x xs IH]; simpl.
  - reflexivity.
  - unfold agc_execute at 2. apply Z.eqb_neq in Hl. rewrite Hl. simpl. exact IH.
Qed.

(** C5. On a locked object [agc_execute] stores [_x * g] in [*_y] and
    changes no field of the object (so no energy estimate is updated and
    the gain is not clamped); over any run of samples the object, and with
    it the gain, stays what it was. *)
Theorem agc_execute_locked (q : agc_s) (x : TC) :
  is_locked q <> 0 ->
  agc_execute logf expf q x = (q, mkC (fmul (re x) (g q)) (fmul (im x) (g q))) /\
  forall xs : list TC, agc_execute_all logf expf q xs = q.
Proof.
  intros Hl. split.
  - unfold agc_execute. apply Z.eqb_neq in Hl. rewrite Hl. reflexivity.
  - intros xs. now apply agc_execute_all_locked.
Qed.

End Locked.

(** The samples 3+4i and 0 on the locked object with gain 1: the output is
    the sample scaled by the gain, the object is unchanged. *)
Lemma agc_execute_locked_witness :
  is_locked (agc_lock q_created) <> 0 /\
  (agc_execute logf0 expf0 (agc_lock q_created) x_3_4i
     = (agc_lock q_created, mkC (fmul f_3 f_1) (fmul f_4 f_1)) /\
   forall xs, agc_execute_all logf0 expf0 (agc_lock q_created) xs = agc_lock q_created).
Proof.
  split.
  - simpl. discriminate.
  - apply (agc_execute_locked logf0 expf0 (agc_lock q_created) x_3_4i).
    simpl. discriminate.
Defined.

Example agc_execute_locked_zero :
  agc_execute logf0 expf0 (agc_lock q_created) x_0 = (agc_lock q_created, x_0).
Proof. reflexivity. Qed.

Example agc_execute_locked_3_4i :
  agc_execute logf0 expf0 (agc_lock q_created) x_3_4i = (agc_lock q_created, x_3_4i).
Proof. reflexivity. Qed.

(** ** The setters *)

(** C6. [agc_set_target] exits with status -1 exactly when
    [_e_target <= 0], and the object is then as it was; otherwise, and so
    for every [_e_target > 0], it returns and has changed [e_target], and
    nothing else, to [_e_target]. *)
Theorem agc_set_target_spec (q : agc_s) (t : T) :
  ((exists s q', agc_set_target q t = Exit s q') <-> fle t f_0 = true) /\
  (fle t f_0 = true -> agc_set_target q t = InvalidParameter q) /\
  (fle t f_0 = false ->
   agc_set_target q t =
   Done (mk_agc (type q) t (g q) (g_min q) (g_max q) (BT q) (alpha q) (beta q)
                (e q) (e_hat q) (e_prime q) (is_locked q))) /\
  (flt f_0 t = true ->
   agc_set_target q t =
   Done (mk_agc (type q) t (g q) (g_min q) (g_max q) (BT q) (alpha q) (beta q)
                (e q) (e_hat q) (e_prime q) (is_locked q))).
Proof.
  unfold agc_set_target. repeat split.
  - intros (s & q' & H). destruct (fle t f_0); [reflexivity | discriminate].
  - intros H. rewrite H. now exists (-1), q.
  - intros H. now rewrite H.
  - intros H. now rewrite H.
  - intros H. now rewrite (flt_not_fle _ _ H).
Qed.

Example agc_set_target_zero : agc_set_target q_created f_0 = Exit (-1) q_created.
Proof. reflexivity. Qed.

Example agc_set_target_minus_one : agc_set_target q_created f_m1 = Exit (-1) q_created.
Proof. reflexivity. Qed.

Example agc_set_target_two :
  agc_set_target q_created f_2 = Done (set_e_target q_created f_2).
Proof. reflexivity. Qed.

(** C7. [agc_set_gain_limits] exits with status -1 exactly when
    [_g_min > _g_max], the object being as it was; otherwise (equal
    limits, zero or negative limits included) it returns with [g_min] and
    [g_max] set and every other field, the gain [g] among them, as it was.
    The gain meets the new limits in [agc_limit_gain], on the next
    [agc_execute] (of the unlocked object: a locked one keeps its gain). *)
Theorem agc_set_gain_limits_spec (q : agc_s) (lo hi : T) :
  ((exists s q', agc_set_gain_limits q lo hi = Exit s q') <-> flt hi lo = true) /\
  (flt hi lo = true -> agc_set_gain_limits q lo hi = InvalidParameter q) /\
  (flt hi lo = false ->
   agc_set_gain_limits q lo hi =
   Done (mk_agc (type q) (e_target q) (g q) lo hi (BT q) (alpha q) (beta q)
                (e q) (e_hat q) (e_prime q) (is_locked q))) /\
  agc_set_gain_limits q lo lo =
   Done (mk_agc (type q) (e_target q) (g q) lo lo (BT q) (alpha q) (beta q)
                (e q) (e_hat q) (e_prime q) (is_locked q)) /\
  (forall logf expf q' x,
     agc_set_gain_limits q lo hi = Done q' ->
     g q' = g q /\
     g (fst (agc_execute logf expf q' x))
       = if is_locked q' =? 0
         then clamp lo hi (g (agc_estimate_gain logf expf q' x))
         else g q).
Proof.
  unfold agc_set_gain_limits. repeat split.
  - intros (s & q' & H). destruct (flt hi lo); [reflexivity | discriminate].
  - intros H. rewrite H. now exists (-1), q.
  - intros H. now rewrite H.
  - intros H. now rewrite H.
  - now rewrite flt_irrefl.
  - destruct (flt hi lo); [discriminate|]. injection H as <-. reflexivity.
  - destruct (flt hi lo); [discriminate|]. injection H as <-.
    unfold agc_execute. simpl is_locked.
    destruct (is_locked q =? 0); [|reflexivity]. simpl negb. cbv iota.
    unfold agc_limit_gain, clamp.
    set (q1 := agc_estimate_gain _ _ _ _).
    assert (Hmin : g_min q1 = lo).
    { unfold q1, agc_estimate_gain, agc_estimate_gain_default, agc_estimate_gain_log,
        agc_estimate_gain_exp. simpl. destruct (type q); simpl; try reflexivity.
      match goal with |- context [if ?b then _ else _] => destruct b end; reflexivity. }
    assert (Hmax : g_max q1 = hi).
    { unfold q1, agc_estimate_gain, agc_estimate_gain_default, agc_estimate_gain_log,
        agc_estimate_gain_exp. simpl. destruct (type q); simpl; try reflexivity.
      match goal with |- context [if ?b then _ else _] => destruct b end; reflexivity. }
    rewrite Hmin, Hmax. simpl.
    destruct (flt hi (g q1)); [reflexivity|]. destruct (flt (g q1) lo); reflexivity.
Qed.

Example agc_set_gain_limits_10_1 :
  agc_set_gain_limits q_created f_10 f_1 = Exit (-1) q_created.
Proof. reflexivity. Qed.

Example agc_set_gain_limits_negative :
  agc_set_gain_limits q_created f_m1 f_0
  = Done (set_g_max (set_g_min q_created f_m1) f_0).
Proof. reflexivity. Qed.

(** After [set_gain_limits(2, 3)] the gain is still 1, below the new
    minimum. *)
Example agc_set_gain_limits_no_clamp :
  agc_set_gain_limits q_created f_2 f_3
  = Done (set_g_max (set_g_min q_created f_2) f_3) /\
  g (set_g_max (set_g_min q_created f_2) f_3) = f_1 /\
  in_limits (set_g_max (set_g_min q_created f_2) f_3) = false.
Proof. repeat split. Qed.

(** C8. [agc_set_bandwidth] exits with status -1 exactly when [_BT < 0]
    or [_BT > 1], the object being as it was; otherwise, and so for every
    [_BT] in [0, 1], it returns having set, in the one call, [BT] to
    [_BT], [alpha] to [sqrtf(_BT)] and [beta] to [1 - alpha], and nothing
    else.  For 0.5 that is [alpha = sqrtf(0.5f)], [beta = 1 - alpha]. *)
Theorem agc_set_bandwidth_spec (q : agc_s) (b : T) :
  ((exists s q', agc_set_bandwidth q b = Exit s q')
     <-> flt b f_0 = true \/ flt f_1 b = true) /\
  (flt b f_0 = true \/ flt f_1 b = true ->
   agc_set_bandwidth q b = InvalidParameter q) /\
  (fle f_0 b = true /\ fle b f_1 = true ->
   agc_set_bandwidth q b =
   Done (mk_agc (type q) (e_target q) (g q) (g_min q) (g_max q)
                b (fsqrt b) (fsub f_1 (fsqrt b))
                (e q) (e_hat q) (e_prime q) (is_locked q))) /\
  (flt b f_0 = false /\ flt f_1 b = false ->
   agc_set_bandwidth q b =
   Done (mk_agc (type q) (e_target q) (g q) (g_min q) (g_max q)
                b (fsqrt b) (fsub f_1 (fsqrt b))
                (e q) (e_hat q) (e_prime q) (is_locked q))) /\
  (exists q', agc_set_bandwidth q f_0_5 = Done q' /\
     alpha q' = fsqrt f_0_5 /\ beta q' = fsub f_1 (alpha q')).
Proof.
  unfold agc_set_bandwidth. repeat split.
  - intros (s & q' & H). destruct (flt b f_0); [now left|].
    destruct (flt f_1 b); [now right | discriminate].
  - intros [H|H]; rewrite H; [|destruct (flt b f_0)]; now exists (-1), q.
  - intros [H|H]; rewrite H; [|destruct (flt b f_0)]; reflexivity.
  - intros [H0 H1]. now rewrite (fle_not_flt _ _ H0), (fle_not_flt _ _ H1).
  - intros [H0 H1]. now rewrite H0, H1.
  - eexists. repeat split.
Qed.

Example agc_set_bandwidth_half :
  agc_set_bandwidth q_created f_0_5
  = Done (mk_agc LIQUID_AGC_LOG f_1 f_1 f_1em6 f_1ep6 f_0_5
                 (S754_finite false 11863283 (-24))   (* 0.70710677 *)
                 (S754_finite false 9827866 (-25))    (* 0.29289323 *)
                 S754_nan f_1 f_1 0).
Proof. reflexivity. Qed.

Example agc_set_bandwidth_negative :
  agc_set_bandwidth q_created f_m0_1 = Exit (-1) q_created.
Proof. reflexivity. Qed.

Example agc_set_bandwidth_above_one :
  agc_set_bandwidth q_created f_1_5 = Exit (-1) q_created.
Proof. reflexivity. Qed.

(** ** Reset *)

(** C9. [agc_reset] sets [e_prime] and [e_hat] to 1.0 and [is_locked] to 0,
    and leaves [g] and every other field as it was. *)
Theorem agc_reset_spec (q : agc_s) :
  agc_reset q =
  mk_agc (type q) (e_target q) (g q) (g_min q) (g_max q) (BT q) (alpha q) (beta q)
         (e q) f_1 f_1 0.
Proof. reflexivity. Qed.

(** A locked object whose gain, filter memory and limits were all changed
    comes back from [agc_reset] unlocked, with the gain it had. *)
Example agc_reset_keeps_gain :
  agc_reset (mk_agc LIQUID_AGC_DEFAULT f_2 f_3 f_1 f_4 f_0_5 f_0_1 f_0_9 f_10 f_4 f_2 1)
  = mk_agc LIQUID_AGC_DEFAULT f_2 f_3 f_1 f_4 f_0_5 f_0_1 f_0_9 f_10 f_1 f_1 0.
Proof. reflexivity. Qed.

(** ** The three update laws *)

Lemma f_1_minus_zeta : fsub f_1 f_zeta = f_0_9.
Proof. reflexivity. Qed.

Lemma f_zeta_0_1 : f_zeta = f_0_1.
Proof. reflexivity. Qed.

(** The smoothing step as the source writes it, and as the specification
    does. *)
Lemma smoothing_step (e0 ep : T) :
  fadd (fmul e0 f_zeta) (fmul ep (fsub f_1 f_zeta))
  = fadd (fmul f_0_1 e0) (fmul f_0_9 ep).
Proof.
  rewrite f_1_minus_zeta, f_zeta_0_1.
  now rewrite (fmul_comm e0 f_0_1), (fmul_comm ep f_0_9).
Qed.

(** The two forms of the energy in the source. *)
Lemma energy_conj (x : TC) :
  crealf (fc_of_dc (cmul (dc_of_fc x) (conj (dc_of_fc x)))) = energy x.
Proof. reflexivity. Qed.

Lemma energyf_conjf (x : TC) : crealf (cmulf x (conjf x)) = energyf x.
Proof. reflexivity. Qed.

Section Laws.

Variable logf expf : T -> T.

(** C3. Unlocked, Default law: [e] is Re(x conj(x)), [e_prime] is
    0.1 e + 0.9 e_prime, [e_hat] is sqrt(e_prime), and the gain is
    beta g + alpha (e_target / e_hat), then clamped to [g_min, g_max];
    no other field changes. *)
Theorem agc_execute_default (q : agc_s) (x : TC) :
  is_locked q = 0 -> type q = LIQUID_AGC_DEFAULT ->
  let e1 := energy x in
  let e_prime1 := fadd (fmul f_0_1 e1) (fmul f_0_9 (e_prime q)) in
  let e_hat1 := fsqrt e_prime1 in
  let g_ideal := fdiv (e_target q) e_hat1 in
  let g1 := fadd (fmul (beta q) (g q)) (fmul (alpha q) g_ideal) in
  let g2 := clamp (g_min q) (g_max q) g1 in
  agc_execute logf expf q x =
  (mk_agc (type q) (e_target q) g2 (g_min q) (g_max q) (BT q) (alpha q) (beta q)
          e1 e_hat1 e_prime1 (is_locked q),
   mkC (fmul (re x) g2) (fmul (im x) g2)).
Proof.
  intros Hl Ht. destruct q; simpl in Hl, Ht; subst. cbv zeta.
  unfold agc_execute, agc_estimate_gain, agc_estimate_gain_default. cbv zeta.
  rewrite energy_conj. fields. rewrite smoothing_step.
  unfold agc_limit_gain, clamp, cscale. fields.
  destruct (flt _ _); [reflexivity|].
  destruct (flt _ _); reflexivity.
Qed.

(** C2. Unlocked, Logarithmic law: the same [e], [e_prime] and [e_hat];
    with g_ideal = e_target / e_hat the gain is
    g exp(alpha (ln g_ideal - ln g)), then clamped to [g_min, g_max]; the
    output is the sample times the new gain. *)
Theorem agc_execute_log (q : agc_s) (x : TC) :
  is_locked q = 0 -> type q = LIQUID_AGC_LOG ->
  let e1 := energy x in
  let e_prime1 := fadd (fmul f_0_1 e1) (fmul f_0_9 (e_prime q)) in
  let e_hat1 := fsqrt e_prime1 in
  let g_ideal := fdiv (e_target q) e_hat1 in
  let g1 := fmul (g q) (expf (fmul (alpha q) (fsub (logf g_ideal) (logf (g q))))) in
  let g2 := clamp (g_min q) (g_max q) g1 in
  agc_execute logf expf q x =
  (mk_agc (type q) (e_target q) g2 (g_min q) (g_max q) (BT q) (alpha q) (beta q)
          e1 e_hat1 e_prime1 (is_locked q),
   mkC (fmul (re x) g2) (fmul (im x) g2)).
Proof.
  intros Hl Ht. destruct q; simpl in Hl, Ht; subst. cbv zeta.
  unfold agc_execute, agc_estimate_gain, agc_estimate_gain_log. cbv zeta.
  rewrite energy_conj. fields. rewrite smoothing_step.
  unfold agc_limit_gain, clamp, cscale. fields.
  destruct (flt _ _); [reflexivity|].
  destruct (flt _ _); reflexivity.
Qed.

(** C4. Unlocked, Exponential law: no smoothing; [e] is Re(x conj(x)),
    [e_hat] is sqrt(e), e_out = e_hat g; the gain is multiplied by
    1 - beta (e_out - e_target) / e_out when e_out > e_target and by
    1 + beta (e_target - e_out) / e_target otherwise, then clamped;
    [e_prime] and every other field stay as they were. *)
Theorem agc_execute_exp (q : agc_s) (x : TC) :
  is_locked q = 0 -> type q = LIQUID_AGC_EXP ->
  let e1 := energyf x in
  let e_hat1 := fsqrt e1 in
  let e_out := fmul e_hat1 (g q) in
  let g1 :=
    if flt (e_target q) e_out
    then fmul (g q) (fsub f_1 (fdiv (fmul (beta q) (fsub e_out (e_target q))) e_out))
    else fmul (g q) (fadd f_1 (fdiv (fmul (beta q) (fsub (e_target q) e_out))
                                    (e_target q))) in
  let g2 := clamp (g_min q) (g_max q) g1 in
  agc_execute logf expf q x =
  (mk_agc (type q) (e_target q) g2 (g_min q) (g_max q) (BT q) (alpha q) (beta q)
          e1 e_hat1 (e_prime q) (is_locked q),
   mkC (fmul (re x) g2) (fmul (im x) g2)).
Proof.
  intros Hl Ht. destruct q; simpl in Hl, Ht; subst. cbv zeta.
  unfold agc_execute, agc_estimate_gain, agc_estimate_gain_exp. cbv zeta.
  rewrite energyf_conjf. fields.
  destruct (flt _ (fmul _ _));
    unfold agc_limit_gain, clamp, cscale; fields;
    (destruct (flt _ _); [reflexivity|]);
    destruct (flt _ _); reflexivity.
Qed.

End Laws.

(** The examples of the three laws on the sample 3+4i, with bandwidth
    0.5. *)
Lemma agc_execute_default_witness :
  is_locked (q_half LIQUID_AGC_DEFAULT) = 0 /\
  type (q_half LIQUID_AGC_DEFAULT) = LIQUID_AGC_DEFAULT /\
  agc_execute logf0 expf0 (q_half LIQUID_AGC_DEFAULT) x_3_4i =
  (mk_agc LIQUID_AGC_DEFAULT f_1
          (S754_finite false 11347702 (-24))     (* g = 0.6763757 *)
          f_1em6 f_1ep6 f_0_5
          (S754_finite false 11863283 (-24)) (S754_finite false 9827866 (-25))
          (S754_finite false 13107200 (-19))     (* e = 25 *)
          (S754_finite false 15467829 (-23))     (* e_hat = 1.8439089 *)
          (S754_finite false 14260634 (-22))     (* e_prime = 3.4 *)
          0,
   mkC (S754_finite false 8510776 (-22)) (S754_finite false 11347702 (-22))).
Proof.
  split; [reflexivity|]. split; [reflexivity|].
  rewrite (agc_execute_default logf0 expf0 (q_half LIQUID_AGC_DEFAULT) x_3_4i
             eq_refl eq_refl).
  vm_compute. reflexivity.
Defined.

Lemma agc_execute_log_witness :
  is_locked (q_half LIQUID_AGC_LOG) = 0 /\
  type (q_half LIQUID_AGC_LOG) = LIQUID_AGC_LOG /\
  agc_execute logf1 expf1 (q_half LIQUID_AGC_LOG) x_3_4i =
  (mk_agc LIQUID_AGC_LOG f_1
          (S754_finite false 10884631 (-24))     (* g = 0.6487746 *)
          f_1em6 f_1ep6 f_0_5
          (S754_finite false 11863283 (-24)) (S754_finite false 9827866 (-25))
          (S754_finite false 13107200 (-19))     (* e = 25 *)
          (S754_finite false 15467829 (-23))     (* e_hat = 1.8439089 *)
          (S754_finite false 14260634 (-22))     (* e_prime = 3.4 *)
          0,
   mkC (S754_finite false 16326946 (-23)) (S754_finite false 10884631 (-22))).
Proof.
  split; [reflexivity|]. split; [reflexivity|].
  rewrite (agc_execute_log logf1 expf1 (q_half LIQUID_AGC_LOG) x_3_4i
             eq_refl eq_refl).
  vm_compute. reflexivity.
Defined.

Lemma agc_execute_exp_witness :
  is_locked (q_half LIQUID_AGC_EXP) = 0 /\
  type (q_half LIQUID_AGC_EXP) = LIQUID_AGC_EXP /\
  agc_execute logf0 expf0 (q_half LIQUID_AGC_EXP) x_3_4i =
  (mk_agc LIQUID_AGC_EXP f_1
          (S754_finite false 12846070 (-24))     (* g = 0.7656854 *)
          f_1em6 f_1ep6 f_0_5
          (S754_finite false 11863283 (-24)) (S754_finite false 9827866 (-25))
          (S754_finite false 13107200 (-19))     (* e = 25 *)
          (S754_finite false 10485760 (-21))     (* e_hat = 5 *)
          f_1                                    (* e_prime, as it was *)
          0,
   mkC (S754_finite false 9634552 (-22)) (S754_finite false 12846070 (-22))).
Proof.
  split; [reflexivity|]. split; [reflexivity|].
  rewrite (agc_execute_exp logf0 expf0 (q_half LIQUID_AGC_EXP) x_3_4i
             eq_refl eq_refl).
  vm_compute. reflexivity.
Defined.

(** The first call on a new object, whose bandwidth is 0: alpha = 0, and
    the Logarithmic law leaves the gain at 1. *)
Example agc_execute_log_created :
  agc_execute logf0 expf0 q_created x_3_4i =
  (mk_agc LIQUID_AGC_LOG f_1 f_1 f_1em6 f_1ep6 f_0 f_0 f_1
          (S754_finite false 13107200 (-19))     (* e = 25 *)
          (S754_finite false 15467829 (-23))     (* e_hat = 1.8439089 *)
          (S754_finite false 14260634 (-22))     (* e_prime = 3.4 *)
          0,
   x_3_4i).
Proof. vm_compute. reflexivity. Qed.

(** The sample inf + i NaN.  The conjugate product recovers the infinity:
    [e] is +infinity and not NaN, and so are [e_prime] and [e_hat] under
    the Default and Logarithmic laws.  Under the Default law the ideal
    gain is 1/inf = 0 and the new gain is beta g, a finite number. *)
Example agc_execute_default_inf_nan :
  agc_execute logf0 expf0 (q_half LIQUID_AGC_DEFAULT) x_inf_nan =
  (mk_agc LIQUID_AGC_DEFAULT f_1
          (S754_finite false 9827866 (-25))      (* g = 0.29289323 *)
          f_1em6 f_1ep6 f_0_5
          (S754_finite false 11863283 (-24)) (S754_finite false 9827866 (-25))
          (S754_infinity false) (S754_infinity false) (S754_infinity false)
          0,
   mkC (S754_infinity false) S754_nan).
Proof. vm_compute. reflexivity. Qed.

Example agc_execute_log_inf_nan (logf expf : T -> T) :
  e (fst (agc_execute logf expf (q_half LIQUID_AGC_LOG) x_inf_nan))
  = S754_infinity false /\
  e_hat (fst (agc_execute logf expf (q_half LIQUID_AGC_LOG) x_inf_nan))
  = S754_infinity false /\
  e_prime (fst (agc_execute logf expf (q_half LIQUID_AGC_LOG) x_inf_nan))
  = S754_infinity false.
Proof.
  unfold agc_execute.
  change (negb (is_locked (q_half LIQUID_AGC_LOG) =? 0)) with false.
  cbv iota zeta. cbn [fst]. unfold agc_limit_gain.
  destruct (flt _ _); [|destruct (flt _ _)];
    unfold agc_estimate_gain; change (type (q_half LIQUID_AGC_LOG)) with LIQUID_AGC_LOG;
    cbv iota; unfold agc_estimate_gain_log; cbv zeta; fields;
    (split; [vm_compute; reflexivity|]); split; vm_compute; reflexivity.
Qed.

Example agc_execute_exp_inf_nan :
  e (fst (agc_execute logf0 expf0 (q_half LIQUID_AGC_EXP) x_inf_nan))
  = S754_infinity false /\
  e (fst (agc_execute logf0 expf0 (q_half LIQUID_AGC_EXP) x_2p64_nan))
  = S754_infinity false /\
  e (fst (agc_execute logf0 expf0 (q_half LIQUID_AGC_DEFAULT) x_2p64_nan))
  = S754_nan.
Proof.
  split; [vm_compute; reflexivity|].
  split; vm_compute; reflexivity.
Qed.

(** ** The gain limits *)

Section Limits.

Variable logf expf : T -> T.

(** The laws write [e], [e_hat], [e_prime] and [g] only. *)
Lemma agc_estimate_gain_frame (q : agc_s) (x : TC) :
  let q' := agc_estimate_gain logf expf q x in
  type q' = type q /\ e_target q' = e_target q /\
  g_min q' = g_min q /\ g_max q' = g_max q /\
  BT q' = BT q /\ alpha q' = alpha q /\ beta q' = beta q /\
  is_locked q' = is_locked q.
Proof.
  destruct q. cbv zeta.
  unfold agc_estimate_gain, agc_estimate_gain_default, agc_estimate_gain_log,
    agc_estimate_gain_exp. cbv zeta. fields.
  destruct type0; fields; try (repeat split; fail).
  destruct (flt _ _); fields; repeat split.
Qed.

Lemma flt_number_l (x y : T) : flt x y = true -> is_nan x = false.
Proof.
  unfold flt, SFltb. destruct x; simpl; try reflexivity. discriminate.
Qed.

Lemma flt_number_r (x y : T) : flt x y = true -> is_nan y = false.
Proof.
  unfold flt, SFltb. destruct y; simpl; try reflexivity.
  destruct x; discriminate.
Qed.

Lemma fle_nan_r (x y : T) : is_nan y = true -> fle x y = false.
Proof. intros H. unfold fle, SFleb. now rewrite (SFcompare_nan_r x y H). Qed.

(** [agc_limit_gain] brings every gain that is a number between the
    limits, and leaves a NaN where it is. *)
Lemma agc_limit_gain_in_limits (q : agc_s) :
  fle (g_min q) (g_max q) = true ->
  in_limits (agc_limit_gain q) = negb (is_nan (g q)).
Proof.
  intros Hv. unfold agc_limit_gain, in_limits.
  pose proof (fle_number_l _ _ Hv) as Hlo.
  pose proof (fle_number_r _ _ Hv) as Hhi.
  destruct (flt (g_max q) (g q)) eqn:H1.
  - fields. rewrite Hv, (fle_refl _ Hhi), (flt_number_r _ _ H1). reflexivity.
  - destruct (flt (g q) (g_min q)) eqn:H2.
    + fields. rewrite Hv, (fle_refl _ Hlo), (flt_number_l _ _ H2). reflexivity.
    + destruct (is_nan (g q)) eqn:Hg.
      * rewrite (fle_nan_r _ _ Hg). reflexivity.
      * rewrite (not_flt_fle _ _ Hg Hlo H2), (not_flt_fle _ _ Hhi Hg H1).
        reflexivity.
Qed.

(** C1, as the code has it.  With limits [g_min <= g_max]: on an
    unlocked object the gain after [agc_execute] lies in [g_min, g_max]
    exactly when the gain the update law computed is a number (a NaN
    passes both comparisons of [agc_limit_gain] and stays); on a locked
    object the gain is not clamped, it stays what it was, inside the
    limits or not. *)
Theorem agc_execute_limits (q : agc_s) (x : TC) :
  fle (g_min q) (g_max q) = true ->
  (is_locked q = 0 ->
   in_limits (fst (agc_execute logf expf q x))
   = negb (is_nan (g (agc_estimate_gain logf expf q x)))) /\
  (is_locked q <> 0 ->
   g (fst (agc_execute logf expf q x)) = g q /\
   in_limits (fst (agc_execute logf expf q x)) = in_limits q).
Proof.
  intros Hv. unfold agc_execute. split; intros Hl.
  - rewrite Hl. simpl negb. cbv iota zeta. cbn [fst].
    destruct (agc_estimate_gain_frame q x) as (_ & _ & Hmin & Hmax & _).
    apply agc_limit_gain_in_limits. now rewrite Hmin, Hmax.
  - apply Z.eqb_neq in Hl. rewrite Hl. split; reflexivity.
Qed.

End Limits.

Lemma agc_execute_limits_witness :
  fle (g_min q_created) (g_max q_created) = true /\
  (is_locked q_created = 0 ->
   in_limits (fst (agc_execute logf0 expf0 q_created x_3_4i))
   = negb (is_nan (g (agc_estimate_gain logf0 expf0 q_created x_3_4i)))) /\
  (is_locked q_created <> 0 ->
   g (fst (agc_execute logf0 expf0 q_created x_3_4i)) = g q_created /\
   in_limits (fst (agc_execute logf0 expf0 q_created x_3_4i)) = in_limits q_created).
Proof.
  split; [reflexivity|].
  apply (agc_execute_limits logf0 expf0 q_created x_3_4i). reflexivity.
Defined.

(** On the new object and the sample 3+4i the gain stays 1, between 1e-6
    and 1e+6. *)
Example agc_execute_limits_created :
  in_limits (fst (agc_execute logf0 expf0 q_created x_3_4i)) = true.
Proof. reflexivity. Qed.

(** C1 as stated fails in two ways.  Locked: after
    [agc_set_gain_limits(q, 2, 3)] and [agc_lock(q)] on a new object the
    limits are valid, and [agc_execute] leaves the gain at 1, below
    [g_min].  Unlocked: a NaN sample under the Default law leaves a NaN
    gain, which [agc_limit_gain] does not move and which is in no
    interval.  Nothing here depends on [logf] or [expf]. *)
Lemma agc_execute_outside_limits :
  ((forall logf expf,
      agc_run logf expf q_created [call_set_gain_limits f_2 f_3; call_lock]
      = Done q_locked_2_3) /\
   fle (g_min q_locked_2_3) (g_max q_locked_2_3) = true /\
   (forall logf expf,
      g (fst (agc_execute logf expf q_locked_2_3 x_3_4i)) = f_1 /\
      in_limits (fst (agc_execute logf expf q_locked_2_3 x_3_4i)) = false)) /\
  (is_locked (q_half LIQUID_AGC_DEFAULT) = 0 /\
   fle (g_min (q_half LIQUID_AGC_DEFAULT)) (g_max (q_half LIQUID_AGC_DEFAULT)) = true /\
   (forall logf expf,
      g (fst (agc_execute logf expf (q_half LIQUID_AGC_DEFAULT) x_nan)) = S754_nan /\
      in_limits (fst (agc_execute logf expf (q_half LIQUID_AGC_DEFAULT) x_nan)) = false)).
Proof. repeat split. Qed.

(** ** Rounding *)

Lemma digits2_pos_bounds (p : positive) :
  2 ^ (Z.pos (digits2_pos p) - 1) <= Z.pos p < 2 ^ Z.pos (digits2_pos p).
Proof.
  induction p as [p IH|p IH|]; cbn [digits2_pos].
  - rewrite Pos2Z.inj_succ.
    replace (Z.succ (Z.pos (digits2_pos p)) - 1) with (Z.succ (Z.pos (digits2_pos p) - 1)) by lia.
    rewrite !Z.pow_succ_r by lia. lia.
  - rewrite Pos2Z.inj_succ.
    replace (Z.succ (Z.pos (digits2_pos p)) - 1) with (Z.succ (Z.pos (digits2_pos p) - 1)) by lia.
    rewrite !Z.pow_succ_r by lia. lia.
  - simpl. lia.
Qed.

Lemma Zdigits2_pos (m : Z) : 0 < m -> 0 < Zdigits2 m.
Proof. destruct m; simpl; lia. Qed.

(** A positive mantissa keeps a bit when fewer bits are shifted out than it
    has digits. *)
Lemma shift_keeps_a_bit (m n : Z) :
  0 < m -> 0 <= n < Zdigits2 m -> 0 < m / 2 ^ n.
Proof.
  intros Hm Hn. destruct m as [|p|p]; try lia. simpl in Hn.
  apply Z.div_str_pos. split; [apply Z.pow_pos_nonneg; lia|].
  pose proof (digits2_pos_bounds p) as [Hlo _].
  apply Z.le_trans with (2 ^ (Z.pos (digits2_pos p) - 1)); [|exact Hlo].
  apply Z.pow_le_mono_r; lia.
Qed.

Lemma shr_1_m (mrs : shr_record) :
  0 <= shr_m mrs -> shr_m (shr_1 mrs) = shr_m mrs / 2.
Proof.
  destruct mrs as [m r s]. simpl.
  destruct m as [|[p|p|]|p]; intros H; try lia; cbn [shr_m];
    rewrite <- Z.div2_div; reflexivity.
Qed.

Lemma iter_shr_1_m (p : positive) :
  forall mrs, 0 <= shr_m mrs ->
    shr_m (iter_pos shr_1 p mrs) = shr_m mrs / 2 ^ Z.pos p.
Proof.
  assert (Hpow : forall k, 0 < 2 ^ Z.pos k) by (intros; apply Z.pow_pos_nonneg; lia).
  induction p as [p IH|p IH|]; intros mrs H; cbn [iter_pos].
  - assert (H1 : 0 <= shr_m (shr_1 mrs)).
    { rewrite shr_1_m by exact H. apply Z.div_pos; lia. }
    assert (H2 : 0 <= shr_m (iter_pos shr_1 p (shr_1 mrs))).
    { rewrite IH by exact H1. apply Z.div_pos; [lia|apply Hpow]. }
    rewrite IH by exact H2. rewrite IH by exact H1. rewrite shr_1_m by exact H.
    pose proof (Hpow p).
    rewrite !Zdiv.Zdiv_Zdiv by lia.
    f_equal. rewrite (Pos2Z.inj_xI p).
    replace (2 * Z.pos p + 1) with (1 + Z.pos p + Z.pos p) by lia.
    rewrite !Z.pow_add_r by lia. change (2 ^ 1) with 2. ring.
  - assert (H2 : 0 <= shr_m (iter_pos shr_1 p mrs)).
    { rewrite IH by exact H. apply Z.div_pos; [lia|apply Hpow]. }
    rewrite IH by exact H2. rewrite IH by exact H.
    pose proof (Hpow p).
    rewrite !Zdiv.Zdiv_Zdiv by lia.
    f_equal. rewrite (Pos2Z.inj_xO p).
    replace (2 * Z.pos p) with (Z.pos p + Z.pos p) by lia.
    rewrite !Z.pow_add_r by lia. ring.
  - rewrite shr_1_m by exact H. reflexivity.
Qed.

Lemma rounded_nz_rounded (emin : Z) (s : bool) (x : spec_float) :
  rounded_nz emin s x -> rounded emin s x.
Proof. destruct x; simpl; tauto. Qed.

Lemma rounded_has_sign (emin : Z) (s : bool) (x : spec_float) :
  rounded emin s x -> has_sign s x.
Proof. destruct x; simpl; tauto. Qed.

Section Rounding.

Variables prec emax : Z.
Hypothesis Hprec : 0 < prec.

#[local] Abbreviation emin := (SpecFloat.emin prec emax).
#[local] Abbreviation fexp := (SpecFloat.fexp prec emax).

Lemma shr_record_of_loc_m (m : Z) (l : location) :
  shr_m (shr_record_of_loc m l) = m.
Proof. destruct l as [|[]]; reflexivity. Qed.

(** One shift to the canonical exponent: the exponent is then at least
    [emin], and a positive mantissa stays positive when fewer bits leave
    than it has. *)
Lemma shr_fexp_spec (m e : Z) (l : location) :
  0 <= m ->
  emin <= snd (shr_fexp prec emax m e l) /\
  0 <= shr_m (fst (shr_fexp prec emax m e l)) /\
  (0 < m -> fexp (Zdigits2 m + e) - e < Zdigits2 m ->
   0 < shr_m (fst (shr_fexp prec emax m e l))).
Proof.
  intros Hm. unfold shr_fexp, shr.
  destruct (fexp (Zdigits2 m + e) - e) as [|p|p] eqn:En; cbn [fst snd];
    rewrite ?iter_shr_1_m by (rewrite shr_record_of_loc_m; exact Hm);
    rewrite shr_record_of_loc_m; unfold SpecFloat.fexp in En.
  - repeat split; lia.
  - repeat split.
    + lia.
    + apply Z.div_pos; [lia|]. apply Z.pow_pos_nonneg; lia.
    + intros Hpos Hn. apply shift_keeps_a_bit; [exact Hpos|].
      unfold SpecFloat.fexp in Hn. lia.
  - repeat split; lia.
Qed.

Lemma round_nearest_even_ge (m : Z) (l : location) :
  m <= round_nearest_even m l.
Proof. destruct l as [|[]]; simpl; try destruct (Z.even m); lia. Qed.

Lemma binary_round_aux_rounded (sx : bool) (m e : Z) (l : location) :
  0 <= m -> rounded emin sx (binary_round_aux prec emax sx m e l).
Proof.
  intros Hm. unfold binary_round_aux.
  destruct (shr_fexp_spec m e l Hm) as (_ & H1 & _).
  destruct (shr_fexp prec emax m e l) as [mrs' e']. cbn [fst snd] in H1.
  set (m1 := round_nearest_even (shr_m mrs') (loc_of_shr_record mrs')).
  assert (Hm1 : 0 <= m1).
  { pose proof (round_nearest_even_ge (shr_m mrs') (loc_of_shr_record mrs')).
    unfold m1. lia. }
  destruct (shr_fexp_spec m1 e' loc_Exact Hm1) as (H2 & H3 & _).
  destruct (shr_fexp prec emax m1 e' loc_Exact) as [mrs'' e''].
  cbn [fst snd] in H2, H3.
  destruct (shr_m mrs'') as [|p|p]; simpl.
  - reflexivity.
  - destruct (e'' <=? emax - prec); simpl; auto.
  - lia.
Qed.

Lemma binary_round_aux_nz (sx : bool) (m e : Z) (l : location) :
  0 < m -> fexp (Zdigits2 m + e) - e < Zdigits2 m ->
  rounded_nz emin sx (binary_round_aux prec emax sx m e l).
Proof.
  intros Hm Hn. unfold binary_round_aux.
  destruct (shr_fexp_spec m e l (Z.lt_le_incl _ _ Hm)) as (H0 & _ & H1).
  specialize (H1 Hm Hn).
  destruct (shr_fexp prec emax m e l) as [mrs' e']. cbn [fst snd] in H0, H1.
  set (m1 := round_nearest_even (shr_m mrs') (loc_of_shr_record mrs')).
  assert (Hm1 : 0 < m1).
  { pose proof (round_nearest_even_ge (shr_m mrs') (loc_of_shr_record mrs')).
    unfold m1. lia. }
  destruct (shr_fexp_spec m1 e' loc_Exact (Z.lt_le_incl _ _ Hm1)) as (H2 & _ & H3).
  assert (Hn1 : fexp (Zdigits2 m1 + e') - e' < Zdigits2 m1).
  { pose proof (Zdigits2_pos m1 Hm1). unfold SpecFloat.fexp. lia. }
  specialize (H3 Hm1 Hn1).
  destruct (shr_fexp prec emax m1 e' loc_Exact) as [mrs'' e''].
  cbn [fst snd] in H2, H3.
  destruct (shr_m mrs'') as [|p|p]; simpl; try lia.
  destruct (e'' <=? emax - prec); simpl; auto.
Qed.

(** At an exponent of at least [emin] nothing positive rounds to zero. *)
Lemma binary_round_aux_nz_emin (sx : bool) (m e : Z) (l : location) :
  0 < m -> emin <= e ->
  rounded_nz emin sx (binary_round_aux prec emax sx m e l).
Proof.
  intros Hm He. apply binary_round_aux_nz; [exact Hm|].
  pose proof (Zdigits2_pos m Hm). unfold SpecFloat.fexp. lia.
Qed.

Lemma shl_align_exp (m : positive) (e e' : Z) :
  snd (shl_align m e e') = Z.min e e'.
Proof.
  unfold shl_align. destruct (e' - e) eqn:E; cbn [snd]; lia.
Qed.

Lemma binary_round_rounded (sx : bool) (m : positive) (e : Z) :
  rounded emin sx (binary_round prec emax sx m e).
Proof.
  unfold binary_round. destruct (shl_align _ _ _) as [mz ez].
  apply binary_round_aux_rounded. lia.
Qed.

Lemma binary_round_nz (sx : bool) (m : positive) (e : Z) :
  emin <= e -> rounded_nz emin sx (binary_round prec emax sx m e).
Proof.
  intros He. unfold binary_round.
  pose proof (shl_align_exp m e (fexp (Z.pos (digits2_pos m) + e))) as Hs.
  destruct (shl_align _ _ _) as [mz ez]. cbn [snd] in Hs.
  apply binary_round_aux_nz_emin; [lia|].
  unfold SpecFloat.fexp in Hs. lia.
Qed.

(** Signs of the products and of the difference in the energy. *)
Lemma SFmul_self_sign (x : spec_float) :
  is_nan x = false -> has_sign false (SFmul prec emax x x).
Proof.
  destruct x as [s|s| |s m e]; simpl; intros H; try discriminate;
    try apply xorb_nilpotent.
  apply (rounded_has_sign emin). rewrite xorb_nilpotent.
  apply binary_round_aux_rounded. lia.
Qed.

Lemma SFmul_self_opp_sign (x : spec_float) :
  is_nan x = false -> has_sign true (SFmul prec emax x (SFopp x)).
Proof.
  destruct x as [s|s| |s m e]; simpl; intros H; try discriminate;
    try (destruct s; reflexivity).
  apply (rounded_has_sign emin).
  replace (xorb s (negb s)) with true by (destruct s; reflexivity).
  apply binary_round_aux_rounded. lia.
Qed.

Lemma SFsub_sign (x y : spec_float) :
  has_sign false x -> has_sign true y -> has_sign false (SFsub prec emax x y).
Proof.
  destruct x as [s|s| |s m e], y as [t|t| |t n f]; simpl;
    intros Hx Hy; subst; try contradiction; try reflexivity.
  apply (rounded_has_sign emin).
  destruct (shl_align m e (Z.min e f)) as [a ?].
  destruct (shl_align n f (Z.min e f)) as [b ?]. simpl.
  apply binary_round_rounded.
Qed.

(** A sum of a non-negative and a positive number is positive. *)
Lemma SFadd_nz (x y : spec_float) :
  rounded emin false x -> rounded_nz emin false y ->
  rounded_nz emin false (SFadd prec emax x y).
Proof.
  destruct x as [s|s| |s m e], y as [t|t| |t n f]; simpl;
    intros Hx Hy; try contradiction; subst; try reflexivity; try tauto.
  destruct Hx as [-> Hx], Hy as [-> Hy].
  destruct (shl_align m e (Z.min e f)) as [a ?].
  destruct (shl_align n f (Z.min e f)) as [b ?]. simpl.
  apply binary_round_nz. lia.
Qed.

(** The square root of a positive number is positive. *)
Lemma SFsqrt_nz (x : spec_float) :
  emin <= 0 ->
  rounded_nz emin false x -> rounded_nz emin false (SFsqrt prec emax x).
Proof.
  intros Hemin. destruct x as [s|s| |s m e]; simpl; try tauto.
  - intros ->. reflexivity.
  - intros [-> He]. unfold SFsqrt_core_binary.
    set (e' := Z.min (fexp (Z.div2 (Zdigits2 (Z.pos m) + e + 1))) (Z.div2 e)).
    set (m' := match e - 2 * e' with
               | Z.pos _ => Z.shiftl (Z.pos m) (e - 2 * e')
               | 0 => Z.pos m
               | Z.neg _ => 0
               end).
    assert (He2 : 2 * Z.div2 e <= e).
    { rewrite Z.div2_div. pose proof (Z.mul_div_le e 2). lia. }
    assert (He' : emin <= e').
    { unfold e', SpecFloat.fexp. rewrite Z.div2_div in *.
      pose proof (Z.div_le_lower_bound e 2 emin). lia. }
    assert (Hm' : 0 < m').
    { unfold m'. destruct (e - 2 * e') as [|p|p] eqn:Es.
      - lia.
      - rewrite Z.shiftl_mul_pow2 by lia.
        apply Z.mul_pos_pos; [lia|]. apply Z.pow_pos_nonneg; lia.
      - unfold e' in Es. lia. }
    pose proof (Z.sqrtrem_sqrt m') as Hq.
    destruct (Z.sqrtrem m') as [q r]. cbn [fst] in Hq.
    apply binary_round_aux_nz_emin; [|exact He'].
    subst q. apply Z.sqrt_pos. exact Hm'.
Qed.

End Rounding.

(** ** Sign symmetry of the arithmetic *)

Lemma SFopp_involutive (x : spec_float) : SFopp (SFopp x) = x.
Proof. destruct x; simpl; rewrite ?negb_involutive; reflexivity. Qed.

Section Symmetry.

Variables prec emax : Z.

(** The sign takes no part in rounding to nearest even. *)
Lemma binary_round_aux_opp (s : bool) (m e : Z) (l : location) :
  binary_round_aux prec emax (negb s) m e l
  = SFopp (binary_round_aux prec emax s m e l).
Proof.
  unfold binary_round_aux.
  destruct (shr_fexp prec emax m e l) as [mrs' e'].
  destruct (shr_fexp prec emax _ e' loc_Exact) as [mrs'' e''].
  destruct (shr_m mrs''); try reflexivity.
  destruct (e'' <=? emax - prec); reflexivity.
Qed.

Lemma binary_round_opp (s : bool) (m : positive) (e : Z) :
  binary_round prec emax (negb s) m e = SFopp (binary_round prec emax s m e).
Proof.
  unfold binary_round. destruct (shl_align _ _ _) as [mz ez].
  apply binary_round_aux_opp.
Qed.

Lemma SFmul_comm (x y : spec_float) : SFmul prec emax x y = SFmul prec emax y x.
Proof.
  destruct x as [s|s| |s m e], y as [t|t| |t n f]; simpl;
    rewrite ?(xorb_comm t s); try reflexivity.
  now rewrite (Pos.mul_comm n m), (Z.add_comm f e).
Qed.

Lemma SFmul_opp_r (x y : spec_float) :
  SFmul prec emax x (SFopp y) = SFopp (SFmul prec emax x y).
Proof.
  destruct x as [s|s| |s m e], y as [t|t| |t n f]; simpl;
    try reflexivity; try (rewrite negb_xorb_r; reflexivity).
  rewrite <- binary_round_aux_opp. now rewrite negb_xorb_r.
Qed.

Lemma SFmul_opp_l (x y : spec_float) :
  SFmul prec emax (SFopp x) y = SFopp (SFmul prec emax x y).
Proof. now rewrite SFmul_comm, SFmul_opp_r, SFmul_comm. Qed.

Lemma SFmul_opp_opp (x y : spec_float) :
  SFmul prec emax (SFopp x) (SFopp y) = SFmul prec emax x y.
Proof. now rewrite SFmul_opp_l, SFmul_opp_r, SFopp_involutive. Qed.

(** Subtracting the opposite is adding. *)
Lemma SFsub_opp (x y : spec_float) :
  SFsub prec emax x (SFopp y) = SFadd prec emax x y.
Proof.
  destruct x as [s|s| |s m e], y as [t|t| |t n f]; simpl; try reflexivity;
    try (destruct s, t; reflexivity);
    try (rewrite negb_involutive; reflexivity).
Qed.

Lemma SFadd_comm (x y : spec_float) : SFadd prec emax x y = SFadd prec emax y x.
Proof.
  destruct x as [s|s| |s m e], y as [t|t| |t n f]; simpl; try reflexivity;
    try (destruct s, t; reflexivity).
  rewrite (Z.min_comm f e). f_equal. apply Z.add_comm.
Qed.

End Symmetry.

Lemma double_of_float_opp (x : T) :
  double_of_float (SFopp x) = SFopp (double_of_float x).
Proof.
  destruct x as [s|s| |s m e]; try reflexivity.
  unfold double_of_float. simpl SFopp at 1. cbv iota beta.
  apply binary_round_opp.
Qed.

(** ** binary32 facts used by the energy filter *)

Lemma prec32_pos : 0 < prec32.
Proof. reflexivity. Qed.

Lemma prec64_pos : 0 < prec64.
Proof. reflexivity. Qed.

Lemma emin32_value : emin prec32 emax32 = -149.
Proof. reflexivity. Qed.

Lemma is_pos_rounded_nz (x : T) :
  is_pos x = true <-> rounded_nz (emin prec32 emax32) false x.
Proof.
  destruct x as [s|[]| |[] m ex]; simpl; split; intros H;
    try discriminate; try tauto; try reflexivity.
  - destruct H; discriminate.
  - apply Z.leb_le in H. auto.
  - apply Z.leb_le. tauto.
Qed.

(** On the values of binary32, [is_pos] is [0 < x]. *)
Lemma is_pos_valid (x : T) :
  valid_binary prec32 emax32 x = true -> is_pos x = flt f_0 x.
Proof.
  destruct x as [s|[]| |[] m ex]; try reflexivity.
  simpl. unfold bounded, canonical_mantissa. intros H.
  apply andb_prop in H. destruct H as [H _]. apply Z.eqb_eq in H.
  change (flt f_0 (S754_finite false m ex)) with true.
  apply Z.leb_le. unfold fexp in H. lia.
Qed.

Lemma is_pos_flt_0 (x : T) : is_pos x = true -> flt f_0 x = true.
Proof. destruct x as [s|[]| |[] m ex]; simpl; try discriminate; reflexivity. Qed.

Lemma is_pos_not_zero (x : T) : pos_or_nan x = true -> is_zero x = false.
Proof. destruct x; simpl; try discriminate; reflexivity. Qed.

Lemma has_sign_number (s : bool) (x : spec_float) :
  has_sign s x -> is_nan x = false.
Proof. destruct x; simpl; try reflexivity. contradiction. Qed.

Lemma number_has_sign (x : spec_float) :
  is_nan x = false -> exists s, has_sign s x.
Proof. destruct x as [s|s| |s m ex]; simpl; try discriminate; now exists s. Qed.

Lemma double_of_float_number (x : T) :
  is_nan x = false -> is_nan (double_of_float x) = false.
Proof.
  destruct x as [s|s| |s m ex]; try discriminate; try reflexivity.
  intros _. unfold double_of_float.
  apply (has_sign_number s), (rounded_has_sign (emin prec64 emax64)).
  apply binary_round_rounded.
Qed.

Lemma float_of_double_sign (s : bool) (x : spec_float) :
  has_sign s x -> has_sign s (float_of_double x).
Proof.
  destruct x as [t|t| |t m ex]; simpl; try tauto.
  intros ->. unfold float_of_double.
  apply (rounded_has_sign (emin prec32 emax32)).
  apply binary_round_rounded.
Qed.

(** ** The conjugate product *)

Lemma SFmul_nan_r (prec emax : Z) (x : spec_float) :
  SFmul prec emax x S754_nan = S754_nan.
Proof. destruct x; reflexivity. Qed.

Lemma SFsub_nan_r (prec emax : Z) (x : spec_float) :
  SFsub prec emax x S754_nan = S754_nan.
Proof. destruct x; reflexivity. Qed.

Lemma is_inf_opp (x : spec_float) : is_inf (SFopp x) = is_inf x.
Proof. destruct x; reflexivity. Qed.

Section ConjugateProduct.

Variables prec emax : Z.

(** 1 is a number of the format, and 1 * 1 = 1 in it. *)
Variables (m1 : positive) (e1 : Z).
Hypothesis Hone : binary_normalize prec emax 1 0 false = S754_finite false m1 e1.
Hypothesis Hone_sq :
  SFmul prec emax (S754_finite false m1 e1) (S754_finite false m1 e1)
  = S754_finite false m1 e1.

Lemma SFmul_ones (s t : bool) :
  SFmul prec emax (S754_finite s m1 e1) (S754_finite t m1 e1)
  = S754_finite (xorb s t) m1 e1.
Proof.
  destruct s, t; simpl xorb.
  - change (S754_finite true m1 e1) with (SFopp (S754_finite false m1 e1)).
    now rewrite SFmul_opp_opp, Hone_sq.
  - change (S754_finite true m1 e1) with (SFopp (S754_finite false m1 e1)).
    now rewrite SFmul_opp_l, Hone_sq.
  - change (S754_finite true m1 e1) with (SFopp (S754_finite false m1 e1)).
    now rewrite SFmul_opp_r, Hone_sq.
  - exact Hone_sq.
Qed.

Ltac recover :=
  cbv beta iota zeta
      delta [is_inf is_nan orb andb negb copysign sign_bit SFabs SFopp re im xorb];
  rewrite ?SFmul_ones;
  cbn [SFmul SFsub SFadd SFopp xorb negb];
  try reflexivity.

(** The real part of [(a + ib) * conj(a + ib)], whatever the sign bits of
    the NaN operands. *)
Lemma cmul_conj_re (sa sb sc sd : bool) (a b : spec_float) :
  re (cmul_annex_g prec emax sa sb sc sd (mkC a b) (mkC a (SFopp b)))
  = conj_product_re prec emax a b.
Proof.
  unfold conj_product_re, sum_of_squares.
  destruct (is_nan a) eqn:Ha; [|destruct (is_nan b) eqn:Hb].
  - (* a is a NaN *)
    destruct a; try discriminate. clear Ha.
    unfold cmul_annex_g. cbv zeta. cbn [re im]. rewrite Hone.
    rewrite !SFmul_nan_r. cbn [SFmul SFsub SFadd is_nan andb is_inf orb].
    destruct b as [s|s| |s m e].
    + reflexivity.
    + destruct s, sa, sb, sc, sd; recover.
    + reflexivity.
    + cbn [SFopp is_inf orb is_nan negb andb].
      change (S754_finite (negb s) m e) with (SFopp (S754_finite s m e)).
      rewrite (SFmul_opp_r prec emax (S754_finite s m e) (S754_finite s m e)).
      rewrite is_inf_opp.
      destruct (SFmul prec emax (S754_finite s m e) (S754_finite s m e)) as [t|t| |t n f] eqn:Eb;
        cbn [SFopp is_inf orb andb is_nan copysign sign_bit SFabs negb re]; try reflexivity.
      change (S754_finite (negb s) m e) with (SFopp (S754_finite s m e)).
      rewrite SFmul_opp_r, Eb.
      assert (Ht : t = false).
      { pose proof (SFmul_self_sign prec emax (S754_finite s m e) eq_refl) as H.
        rewrite Eb in H. exact H. }
      subst t. destruct sa, sc; reflexivity.
  - (* b is a NaN, a is not *)
    destruct b; try discriminate. clear Hb.
    unfold cmul_annex_g. cbv zeta. cbn [re im SFopp]. rewrite Hone.
    rewrite !SFmul_nan_r, SFsub_nan_r.
    cbn [SFmul SFadd is_nan andb is_inf orb].
    destruct a as [s|s| |s m e]; try discriminate.
    + reflexivity.
    + destruct s, sa, sb, sc, sd; recover.
    + cbn [is_inf orb is_nan negb andb].
      destruct (SFmul prec emax (S754_finite s m e) (S754_finite s m e)) as [t|t| |t n f] eqn:Ea;
        cbn [is_inf orb andb is_nan copysign sign_bit SFabs negb re]; try reflexivity.
      rewrite Ea.
      assert (Ht : t = false).
      { pose proof (SFmul_self_sign prec emax (S754_finite s m e) eq_refl) as H.
        rewrite Ea in H. exact H. }
      subst t. destruct sb, sd; reflexivity.
  - (* neither is a NaN *)
    unfold cmul_annex_g. cbv zeta. cbn [re im].
    assert (Hx : is_nan (SFsub prec emax (SFmul prec emax a a)
                           (SFmul prec emax b (SFopp b))) = false).
    { apply (has_sign_number false), SFsub_sign.
      - now apply SFmul_self_sign.
      - now apply SFmul_self_opp_sign. }
    rewrite Hx. cbn [andb re].
    now rewrite SFmul_opp_r, SFsub_opp.
Qed.

End ConjugateProduct.

Lemma is_nan_opp (x : spec_float) : is_nan (SFopp x) = is_nan x.
Proof. destruct x; reflexivity. Qed.

Lemma sum_of_squares_sign (prec emax : Z) (a b : spec_float) :
  is_nan a = false -> is_nan b = false ->
  has_sign false (sum_of_squares prec emax a b).
Proof.
  intros Ha Hb. unfold sum_of_squares. rewrite <- SFsub_opp, <- SFmul_opp_r.
  apply SFsub_sign.
  - now apply SFmul_self_sign.
  - now apply SFmul_self_opp_sign.
Qed.

Lemma conj_product_re_number (prec emax : Z) (a b : spec_float) :
  is_nan a = false -> is_nan b = false ->
  conj_product_re prec emax a b = sum_of_squares prec emax a b.
Proof. intros Ha Hb. unfold conj_product_re. now rewrite Ha, Hb. Qed.

Lemma conj_product_re_nan (prec emax : Z) (a b : spec_float) :
  is_nan a || is_nan b = true ->
  conj_product_re prec emax a b = S754_nan \/
  conj_product_re prec emax a b = S754_infinity false.
Proof.
  unfold conj_product_re. destruct (is_nan a); [|destruct (is_nan b)];
    try discriminate; intros _;
    match goal with |- context [is_inf ?u] => destruct (is_inf u) end; auto.
Qed.

Lemma conj_product_re_opp_l (prec emax : Z) (a b : spec_float) :
  conj_product_re prec emax (SFopp a) b = conj_product_re prec emax a b.
Proof.
  unfold conj_product_re, sum_of_squares. now rewrite SFmul_opp_opp, is_nan_opp.
Qed.

Lemma conj_product_re_opp_r (prec emax : Z) (a b : spec_float) :
  conj_product_re prec emax a (SFopp b) = conj_product_re prec emax a b.
Proof.
  unfold conj_product_re, sum_of_squares. now rewrite SFmul_opp_opp, is_nan_opp.
Qed.

Lemma conj_product_re_comm (prec emax : Z) (a b : spec_float) :
  conj_product_re prec emax a b = conj_product_re prec emax b a.
Proof.
  unfold conj_product_re, sum_of_squares.
  destruct (is_nan a) eqn:Ha, (is_nan b) eqn:Hb; try reflexivity.
  - destruct a, b; try discriminate. reflexivity.
  - apply SFadd_comm.
Qed.

(** ** The energy of a sample *)

Lemma double_of_float_nan (x : T) : is_nan (double_of_float x) = is_nan x.
Proof.
  destruct (is_nan x) eqn:H.
  - destruct x; try discriminate. reflexivity.
  - now apply double_of_float_number.
Qed.

(** [crealf(_x * conj(_x))] and [crealf(_x * conjf(_x))], whatever the sign
    bits of the NaN operands. *)
Lemma energy_ns_conj_product (sa sb sc sd : bool) (x : TC) :
  energy_ns sa sb sc sd x
  = float_of_double (conj_product_re prec64 emax64 (double_of_float (re x))
                                     (double_of_float (im x))).
Proof.
  unfold energy_ns, crealf, fc_of_dc, conj, dc_of_fc. cbn [re im]. f_equal.
  apply (cmul_conj_re prec64 emax64 4503599627370496 (-52));
    vm_compute; reflexivity.
Qed.

Lemma energyf_ns_conj_product (sa sb sc sd : bool) (x : TC) :
  energyf_ns sa sb sc sd x = conj_product_re prec32 emax32 (re x) (im x).
Proof.
  unfold energyf_ns, crealf, conjf. destruct x as [a b]. cbn [re im].
  apply (cmul_conj_re prec32 emax32 8388608 (-23)); vm_compute; reflexivity.
Qed.

Lemma energy_conj_product (x : TC) :
  energy x
  = float_of_double (conj_product_re prec64 emax64 (double_of_float (re x))
                                     (double_of_float (im x))).
Proof. exact (energy_ns_conj_product false false false false x). Qed.

Lemma energyf_conj_product (x : TC) :
  energyf x = conj_product_re prec32 emax32 (re x) (im x).
Proof. exact (energyf_ns_conj_product false false false false x). Qed.

(** The sign bits of the NaN operands play no part. *)
Lemma energy_nan_sign (sa sb sc sd : bool) (x : TC) :
  energy_ns sa sb sc sd x = energy x.
Proof. now rewrite energy_ns_conj_product, energy_conj_product. Qed.

Lemma energyf_nan_sign (sa sb sc sd : bool) (x : TC) :
  energyf_ns sa sb sc sd x = energyf x.
Proof. now rewrite energyf_ns_conj_product, energyf_conj_product. Qed.

(** The energy of a sample without NaN is not negative, and not a NaN. *)
Lemma energy_sign (x : TC) : is_number x = true -> has_sign false (energy x).
Proof.
  unfold is_number. intros H. apply andb_prop in H. destruct H as [Hr Hi].
  apply negb_true_iff in Hr, Hi.
  apply double_of_float_number in Hr, Hi.
  rewrite energy_conj_product, (conj_product_re_number _ _ _ _ Hr Hi).
  apply float_of_double_sign. now apply sum_of_squares_sign.
Qed.

(** With a NaN in the sample it is a NaN or +infinity. *)
Lemma energy_nan (x : TC) :
  is_number x = false -> energy x = S754_nan \/ energy x = S754_infinity false.
Proof.
  unfold is_number. intros H. rewrite energy_conj_product.
  destruct (conj_product_re_nan prec64 emax64 (double_of_float (re x))
              (double_of_float (im x))) as [E|E].
  - rewrite !double_of_float_nan.
    destruct (is_nan (re x)), (is_nan (im x)); try reflexivity; discriminate.
  - left. now rewrite E.
  - right. now rewrite E.
Qed.

Lemma energy_sign_or_nan (x : TC) :
  energy x = S754_nan \/ has_sign false (energy x).
Proof.
  destruct (is_number x) eqn:Hx.
  - right. now apply energy_sign.
  - destruct (energy_nan x Hx) as [E|E]; rewrite E; [now left | now right].
Qed.

Lemma fmul_zeta_rounded (e0 : T) :
  has_sign false e0 -> rounded (emin prec32 emax32) false (fmul e0 f_zeta).
Proof.
  destruct e0 as [s|s| |s m ex]; simpl; try tauto; intros ->;
    unfold fmul, f_zeta; cbn [SFmul xorb]; try reflexivity.
  apply binary_round_aux_rounded. lia.
Qed.

(** 0.9f times a positive [float] is positive: the product of the smallest
    subnormal rounds back up to it, any larger product keeps a bit. *)
Lemma fmul_0_9_pos (ep : T) : is_pos ep = true -> is_pos (fmul ep f_0_9) = true.
Proof.
  intros H. apply is_pos_rounded_nz in H. apply is_pos_rounded_nz.
  destruct ep as [s|s| |s m ex]; simpl in H; try contradiction.
  - subst s. reflexivity.
  - destruct H as [-> He]. rewrite emin32_value in He.
    unfold fmul, f_0_9. cbn [SFmul xorb].
    destruct (Pos.eq_dec m 1) as [->|Hm].
    + destruct (Z.eq_dec ex (-149)) as [->|Hex].
      * assert (E : binary_round_aux prec32 emax32 false (Z.pos (1 * 15099494))
                      (-149 + -24) loc_Exact = S754_finite false 1 (-149))
          by (vm_compute; reflexivity).
        rewrite E. simpl. rewrite emin32_value. split; [reflexivity|lia].
      * apply binary_round_aux_nz; [exact prec32_pos | lia |].
        change (Zdigits2 (Z.pos (1 * 15099494))) with 24.
        unfold fexp. rewrite emin32_value. unfold prec32. lia.
    + apply binary_round_aux_nz; [exact prec32_pos | lia |].
      pose proof (digits2_pos_bounds (m * 15099494)) as [_ Hhi].
      assert (Hd : 24 < Z.pos (digits2_pos (m * 15099494))).
      { apply (Z.pow_lt_mono_r_iff 2); [lia | lia |].
        apply Z.le_lt_trans with (Z.pos (m * 15099494)); [|exact Hhi].
        rewrite Pos2Z.inj_mul. change (2 ^ 24) with 16777216. lia. }
      cbn [Zdigits2]. unfold fexp. rewrite emin32_value. unfold prec32. lia.
Qed.

Lemma fadd_nan_r (x : T) : fadd x S754_nan = S754_nan.
Proof. destruct x; reflexivity. Qed.

(** The smoothing filter keeps its memory positive on samples without
    NaN, and positive or NaN on every sample. *)
Lemma smoothing_pos_of_sign (e0 ep : T) :
  has_sign false e0 -> is_pos ep = true ->
  is_pos (fadd (fmul e0 f_zeta) (fmul ep (fsub f_1 f_zeta))) = true.
Proof.
  intros He Hep. rewrite f_1_minus_zeta. apply is_pos_rounded_nz.
  apply SFadd_nz; [exact prec32_pos | |].
  - apply fmul_zeta_rounded, He.
  - apply is_pos_rounded_nz, fmul_0_9_pos, Hep.
Qed.

Lemma smoothing_pos (x : TC) (ep : T) :
  is_number x = true -> is_pos ep = true ->
  is_pos (fadd (fmul (energy x) f_zeta) (fmul ep (fsub f_1 f_zeta))) = true.
Proof. intros Hx. apply smoothing_pos_of_sign, energy_sign, Hx. Qed.

Lemma smoothing_pos_or_nan (x : TC) (ep : T) :
  pos_or_nan ep = true ->
  pos_or_nan (fadd (fmul (energy x) f_zeta) (fmul ep (fsub f_1 f_zeta))) = true.
Proof.
  unfold pos_or_nan. intros Hep.
  destruct (energy_sign_or_nan x) as [E|E].
  - rewrite E. reflexivity.
  - destruct (is_pos ep) eqn:Hp.
    + now rewrite smoothing_pos_of_sign.
    + simpl in Hep. destruct ep; try discriminate.
      change (fmul S754_nan (fsub f_1 f_zeta)) with S754_nan.
      rewrite fadd_nan_r. reflexivity.
Qed.

Lemma fsqrt_pos (x : T) : is_pos x = true -> is_pos (fsqrt x) = true.
Proof.
  intros H. apply is_pos_rounded_nz in H. apply is_pos_rounded_nz.
  apply SFsqrt_nz; [exact prec32_pos | rewrite emin32_value; lia | exact H].
Qed.

Lemma fsqrt_pos_or_nan (x : T) : pos_or_nan x = true -> pos_or_nan (fsqrt x) = true.
Proof.
  unfold pos_or_nan. destruct (is_pos x) eqn:Hp; intros H.
  - now rewrite fsqrt_pos.
  - destruct x; try discriminate. reflexivity.
Qed.

(** ** No division by zero *)

Section Safety.

Variable logf expf : T -> T.

Lemma agc_limit_gain_frame (q : agc_s) :
  e_prime (agc_limit_gain q) = e_prime q /\
  e_target (agc_limit_gain q) = e_target q.
Proof.
  unfold agc_limit_gain.
  destruct (flt (g_max q) (g q)); [split; reflexivity|].
  destruct (flt (g q) (g_min q)); split; reflexivity.
Qed.

(** The filter memory after an update law. *)
Lemma agc_estimate_gain_e_prime (q : agc_s) (x : TC) :
  e_prime (agc_estimate_gain logf expf q x) =
  match type q with
  | LIQUID_AGC_EXP => e_prime q
  | _ => fadd (fmul (energy x) f_zeta) (fmul (e_prime q) (fsub f_1 f_zeta))
  end.
Proof.
  destruct q. unfold agc_estimate_gain, agc_estimate_gain_default,
    agc_estimate_gain_log, agc_estimate_gain_exp. cbv zeta.
  rewrite energy_conj. fields.
  destruct type0; fields; try reflexivity.
  destruct (flt _ _); reflexivity.
Qed.

Lemma agc_execute_e_target (q : agc_s) (x : TC) :
  e_target (fst (agc_execute logf expf q x)) = e_target q.
Proof.
  unfold agc_execute. destruct (negb (is_locked q =? 0)); [reflexivity|].
  cbv zeta. cbn [fst].
  destruct (agc_limit_gain_frame (agc_estimate_gain logf expf q x)) as [_ ->].
  now destruct (agc_estimate_gain_frame logf expf q x) as (_ & -> & _).
Qed.

Lemma agc_execute_e_prime (q : agc_s) (x : TC) :
  e_prime (fst (agc_execute logf expf q x)) =
  if negb (is_locked q =? 0) then e_prime q
  else match type q with
       | LIQUID_AGC_EXP => e_prime q
       | _ => fadd (fmul (energy x) f_zeta) (fmul (e_prime q) (fsub f_1 f_zeta))
       end.
Proof.
  unfold agc_execute. destruct (negb (is_locked q =? 0)); [reflexivity|].
  cbv zeta. cbn [fst].
  destruct (agc_limit_gain_frame (agc_estimate_gain logf expf q x)) as [-> _].
  apply agc_estimate_gain_e_prime.
Qed.

(** What a call does to [e_prime] and [e_target]. *)
Lemma agc_step_fields (q q' : agc_s) (c : agc_call) :
  agc_step logf expf q c = Done q' ->
  (e_prime q' = e_prime q \/ e_prime q' = f_1 \/
   exists x, c = call_execute x /\
     e_prime q' = fadd (fmul (energy x) f_zeta) (fmul (e_prime q) (fsub f_1 f_zeta))) /\
  (e_target q' = e_target q \/ fle (e_target q') f_0 = false).
Proof.
  destruct c as [|t|lo hi|b| | |x]; simpl.
  - intros [= <-]. split; [right; left|left]; reflexivity.
  - unfold agc_set_target. destruct (fle t f_0) eqn:Ht; [discriminate|].
    intros [= <-]. split; [left; reflexivity | right; exact Ht].
  - unfold agc_set_gain_limits. destruct (flt hi lo); [discriminate|].
    intros [= <-]. split; left; reflexivity.
  - unfold agc_set_bandwidth. destruct (flt b f_0); [discriminate|].
    destruct (flt f_1 b); [discriminate|].
    intros [= <-]. split; left; reflexivity.
  - intros [= <-]. split; left; reflexivity.
  - intros [= <-]. split; left; reflexivity.
  - intros [= <-]. split.
    + rewrite agc_execute_e_prime.
      destruct (negb (is_locked q =? 0)); [now left|].
      destruct (type q); [right; right; now exists x | right; right; now exists x | now left].
    + left. apply agc_execute_e_target.
Qed.

Lemma agc_step_inv (q q' : agc_s) (c : agc_call) :
  agc_inv q = true -> agc_step logf expf q c = Done q' -> agc_inv q' = true.
Proof.
  unfold agc_inv. intros Hq Hs. apply andb_prop in Hq. destruct Hq as [Hp Ht].
  destruct (agc_step_fields q q' c Hs) as [Hep Het].
  apply andb_true_intro. split.
  - destruct Hep as [->|[->|(x & _ & ->)]];
      [exact Hp | reflexivity | now apply smoothing_pos_or_nan].
  - destruct Het as [->| ->]; [exact Ht | reflexivity].
Qed.

Lemma agc_run_inv (cs : list agc_call) :
  forall q q', agc_inv q = true -> agc_run logf expf q cs = Done q' ->
               agc_inv q' = true.
Proof.
  induction cs as [|c cs IH]; intros q q' Hq; simpl.
  - now intros [= <-].
  - destruct (agc_step logf expf q c) as [q1|] eqn:Hs; simpl; [|discriminate].
    apply IH. exact (agc_step_inv q q1 c Hq Hs).
Qed.

Lemma agc_step_pos (q q' : agc_s) (c : agc_call) :
  is_pos (e_prime q) = true -> call_is_number c = true ->
  agc_step logf expf q c = Done q' -> is_pos (e_prime q') = true.
Proof.
  intros Hp Hc Hs.
  destruct (agc_step_fields q q' c Hs) as [[->|[->|(x & -> & ->)]] _];
    [exact Hp | reflexivity | now apply smoothing_pos].
Qed.

Lemma agc_run_pos (cs : list agc_call) :
  forall q q', is_pos (e_prime q) = true -> forallb call_is_number cs = true ->
               agc_run logf expf q cs = Done q' -> is_pos (e_prime q') = true.
Proof.
  induction cs as [|c cs IH]; intros q q' Hq; simpl.
  - now intros _ [= <-].
  - intros Hcs. apply andb_prop in Hcs. destruct Hcs as [Hc Hcs].
    destruct (agc_step logf expf q c) as [q1|] eqn:Hs; simpl; [|discriminate].
    apply IH; [|exact Hcs]. exact (agc_step_pos q q1 c Hq Hc Hs).
Qed.

Lemma fdiv_chk_some (a b : T) : is_zero b = false -> fdiv_chk a b = Some (fdiv a b).
Proof. unfold fdiv_chk. now intros ->. Qed.

Lemma not_fle_0_not_zero (t : T) : fle t f_0 = false -> is_zero t = false.
Proof. destruct t; simpl; try reflexivity. discriminate. Qed.

Lemma flt_above_target_not_zero (t u : T) :
  fle t f_0 = false -> flt t u = true -> is_zero u = false.
Proof.
  intros Ht Hu. destruct (is_zero u) eqn:Hz; [|reflexivity].
  unfold flt, SFltb in Hu. rewrite (SFcompare_zero_r t u Hz) in Hu.
  apply (flt_fle t f_0) in Hu. congruence.
Qed.

(** Under the invariant no divisor of [agc_execute] is a zero. *)
Lemma agc_execute_chk_ok (q : agc_s) (x : TC) :
  agc_inv q = true ->
  agc_execute_chk logf expf q x = Some (agc_execute logf expf q x).
Proof.
  unfold agc_inv. intros Hq. apply andb_prop in Hq. destruct Hq as [Hp Ht].
  apply negb_true_iff in Ht.
  unfold agc_execute_chk, agc_execute.
  destruct (negb (is_locked q =? 0)); [reflexivity|].
  assert (Hhat : is_zero (fsqrt (fadd (fmul (energy x) f_zeta)
                                      (fmul (e_prime q) (fsub f_1 f_zeta)))) = false).
  { apply is_pos_not_zero, fsqrt_pos_or_nan, smoothing_pos_or_nan, Hp. }
  enough (E : agc_estimate_gain_chk logf expf q x
              = Some (agc_estimate_gain logf expf q x)) by now rewrite E.
  destruct q. cbn [e_prime e_target] in *.
  unfold agc_estimate_gain_chk, agc_estimate_gain. cbn [type].
  destruct type0.
  - unfold agc_estimate_gain_default_chk, agc_estimate_gain_default. cbv zeta.
    rewrite energy_conj. fields. now rewrite (fdiv_chk_some _ _ Hhat).
  - unfold agc_estimate_gain_log_chk, agc_estimate_gain_log. cbv zeta.
    rewrite energy_conj. fields. now rewrite (fdiv_chk_some _ _ Hhat).
  - unfold agc_estimate_gain_exp_chk, agc_estimate_gain_exp. cbv zeta.
    rewrite energyf_conjf. fields.
    destruct (flt e_target0 _) eqn:Hout.
    + now rewrite (fdiv_chk_some _ _ (flt_above_target_not_zero _ _ Ht Hout)).
    + now rewrite (fdiv_chk_some _ _ (not_fle_0_not_zero _ Ht)).
Qed.

(** C10, as the code has it.  A new object has [e_prime = 1 > 0] and
    [e_target = 1 > 0].  Every sequence of calls that returns keeps
    [e_prime] positive or NaN and [e_target] positive or NaN, and keeps
    [e_prime] strictly positive as long as no sample has a NaN part.  In
    every such state, for every sample (0 and NaN included), no divisor
    of [agc_execute] is a zero: the run with checked divisions returns
    what [agc_execute] returns. *)
Theorem agc_execute_no_division_by_zero :
  (forall mem q, agc_create mem = Done q ->
     is_pos (e_prime q) = true /\ flt f_0 (e_target q) = true /\ agc_inv q = true) /\
  (forall q cs q', agc_inv q = true -> agc_run logf expf q cs = Done q' ->
     agc_inv q' = true) /\
  (forall q cs q', is_pos (e_prime q) = true ->
     forallb call_is_number cs = true ->
     agc_run logf expf q cs = Done q' ->
     is_pos (e_prime q') = true /\ flt f_0 (e_prime q') = true) /\
  (forall q x, agc_inv q = true ->
     agc_execute_chk logf expf q x = Some (agc_execute logf expf q x)).
Proof.
  split; [|split; [|split]].
  - intros mem q. rewrite agc_create_done. intros [= <-]. repeat split.
  - intros q cs q'. apply agc_run_inv.
  - intros q cs q' Hp Hcs Hr.
    pose proof (agc_run_pos cs q q' Hp Hcs Hr) as H.
    split; [exact H | now apply is_pos_flt_0].
  - apply agc_execute_chk_ok.
Qed.

End Safety.

(** On the new object, the sample 0 divides by no zero. *)
Lemma agc_execute_no_division_by_zero_witness :
  agc_inv q_created = true /\
  agc_execute_chk logf0 expf0 q_created x_0
  = Some (agc_execute logf0 expf0 q_created x_0).
Proof.
  split; [reflexivity|].
  apply (proj2 (proj2 (proj2 (agc_execute_no_division_by_zero logf0 expf0)))).
  reflexivity.
Defined.

(** C10 as stated fails on NaN: one [agc_execute] of NaN + 0i on a new
    object leaves [e_prime] a NaN, which is not [> 0]; and
    [agc_set_target] takes a NaN, which is not [<= 0] and not [> 0]
    either.  Nothing here depends on [logf] or [expf]. *)
Lemma agc_execute_nan_e_prime :
  agc_create mem0 = Done q_created /\
  (forall logf expf, exists q',
     agc_run logf expf q_created [call_execute x_nan] = Done q' /\
     e_prime q' = S754_nan /\
     flt f_0 (e_prime q') = false) /\
  (forall logf expf, exists q',
     agc_run logf expf q_created [call_set_target S754_nan] = Done q' /\
     e_target q' = S754_nan /\
     flt f_0 (e_target q') = false).
Proof.
  split; [reflexivity|]. split; intros logf expf.
  - exists (fst (agc_execute logf expf q_created x_nan)).
    split; [reflexivity|].
    rewrite agc_execute_e_prime. split; reflexivity.
  - eexists. repeat split.
Qed.

(** Three thousand samples 0 under the Default law: the filter memory
    decays from 1 to four times the smallest subnormal, 4 * 2^-149, and
    stays there; it never reaches zero. *)
Example agc_execute_zero_samples :
  e_prime (agc_execute_all logf0 expf0 (q_half LIQUID_AGC_DEFAULT) (repeat x_0 3000))
  = S754_finite false 4 (-149) /\
  e_prime (agc_execute_all logf0 expf0 (q_half LIQUID_AGC_DEFAULT) (repeat x_0 3001))
  = S754_finite false 4 (-149).
Proof. split; vm_compute; reflexivity. Qed.

(** * Further properties of the code *)

(** ** The energy of a sample, again *)

(** Without NaN in the sample the conjugate product is the sum of the two
    squares: in [double] and converted, where [conj] is called; in
    [float], where [conjf] is. *)
Lemma energy_sum_of_squares (x : TC) :
  is_number x = true ->
  energy x = float_of_double (dadd (dmul (double_of_float (re x)) (double_of_float (re x)))
                                   (dmul (double_of_float (im x)) (double_of_float (im x)))).
Proof.
  unfold is_number. intros H. apply andb_prop in H. destruct H as [Hr Hi].
  apply negb_true_iff in Hr, Hi. apply double_of_float_number in Hr, Hi.
  now rewrite energy_conj_product, (conj_product_re_number _ _ _ _ Hr Hi).
Qed.

Lemma energyf_sum_of_squares (x : TC) :
  is_number x = true ->
  energyf x = fadd (fmul (re x) (re x)) (fmul (im x) (im x)).
Proof.
  unfold is_number. intros H. apply andb_prop in H. destruct H as [Hr Hi].
  apply negb_true_iff in Hr, Hi.
  now rewrite energyf_conj_product, (conj_product_re_number _ _ _ _ Hr Hi).
Qed.

(** X1. What [crealf(_x * conj(_x))] and [crealf(_x * conjf(_x))] compute
    for _x = a + ib, whatever the sign bits of a NaN operand: a^2 + b^2,
    two squares and one sum, in [double] then converted to [float] in the
    first form, in [float] in the second, when neither part is a NaN;
    when one part is a NaN, +infinity if the square of the other part is
    infinite in the format of the product and NaN if it is not. *)
Theorem energy_is_sum_of_squares (sa sb sc sd : bool) (x : TC) :
  crealf (fc_of_dc (cmul_annex_g prec64 emax64 sa sb sc sd
                                 (dc_of_fc x) (conj (dc_of_fc x))))
  = float_of_double (conj_product_re prec64 emax64 (double_of_float (re x))
                                     (double_of_float (im x))) /\
  crealf (cmul_annex_g prec32 emax32 sa sb sc sd x (conjf x))
  = conj_product_re prec32 emax32 (re x) (im x) /\
  (is_number x = true ->
   crealf (fc_of_dc (cmul (dc_of_fc x) (conj (dc_of_fc x))))
   = float_of_double (dadd (dmul (double_of_float (re x)) (double_of_float (re x)))
                           (dmul (double_of_float (im x)) (double_of_float (im x)))) /\
   crealf (cmulf x (conjf x))
   = fadd (fmul (re x) (re x)) (fmul (im x) (im x))).
Proof.
  split; [exact (energy_ns_conj_product sa sb sc sd x)|].
  split; [exact (energyf_ns_conj_product sa sb sc sd x)|].
  intros Hx. rewrite energy_conj, energyf_conjf. split.
  - now apply energy_sum_of_squares.
  - now apply energyf_sum_of_squares.
Qed.

Example energy_3_4i : energy x_3_4i = float_of_Z 25 /\ energyf x_3_4i = float_of_Z 25.
Proof. split; reflexivity. Qed.

(** The sample inf + i NaN has energy +infinity in both forms; the sample
    2^64 + i NaN has it in [float], where 2^128 overflows, and has energy
    NaN in [double], where it does not; NaN + 0i has energy NaN. *)
Example energy_inf_nan :
  energy x_inf_nan = S754_infinity false /\ energyf x_inf_nan = S754_infinity false.
Proof. split; reflexivity. Qed.

Example energy_2p64_nan :
  energy x_2p64_nan = S754_nan /\ energyf x_2p64_nan = S754_infinity false.
Proof. split; reflexivity. Qed.

Example energy_nan_0 : energy x_nan = S754_nan /\ energyf x_nan = S754_nan.
Proof. split; reflexivity. Qed.

Lemma has_sign_false_nonneg (x : T) : has_sign false x -> fle f_0 x = true.
Proof. destruct x as [s|s| |s m ex]; simpl; try contradiction; intros ->; reflexivity. Qed.

Lemma fmul_nan_l (x : T) : fmul S754_nan x = S754_nan.
Proof. reflexivity. Qed.

Lemma fmul_nan_r (x : T) : fmul x S754_nan = S754_nan.
Proof. destruct x; reflexivity. Qed.

Lemma fadd_nan_l (x : T) : fadd S754_nan x = S754_nan.
Proof. reflexivity. Qed.

Lemma fsub_nan_r (x : T) : fsub x S754_nan = S754_nan.
Proof. destruct x; reflexivity. Qed.

Lemma energyf_sign (x : TC) : is_number x = true -> has_sign false (energyf x).
Proof.
  unfold is_number. intros H. apply andb_prop in H. destruct H as [Hr Hi].
  apply negb_true_iff in Hr, Hi.
  rewrite energyf_conj_product, (conj_product_re_number _ _ _ _ Hr Hi).
  now apply sum_of_squares_sign.
Qed.

Lemma energyf_nan (x : TC) :
  is_number x = false -> energyf x = S754_nan \/ energyf x = S754_infinity false.
Proof.
  unfold is_number. intros H. rewrite energyf_conj_product.
  apply conj_product_re_nan.
  destruct (is_nan (re x)), (is_nan (im x)); try reflexivity; discriminate.
Qed.

Lemma is_saturated_not_negative (x : T) :
  is_saturated x = true -> flt x f_0 = false.
Proof. destruct x as [s|[]| |s m ex]; try discriminate; reflexivity. Qed.

Lemma fle_0_not_negative (x : T) : fle f_0 x = true -> flt x f_0 = false.
Proof. apply fle_not_flt. Qed.

(** X2. The energy estimate [e] that [agc_execute] stores is never
    negative.  For a sample without NaN it is a number and [>= 0],
    +infinity included when the squares overflow.  For a sample with a NaN
    part it is NaN or +infinity; so a NaN energy comes from a NaN in the
    sample, but a NaN in the sample need not give a NaN energy. *)
Theorem energy_nonneg_or_nan (x : TC) :
  flt (energy x) f_0 = false /\ flt (energyf x) f_0 = false /\
  (is_number x = true -> fle f_0 (energy x) = true /\ fle f_0 (energyf x) = true) /\
  (is_number x = false ->
   is_saturated (energy x) = true /\ is_saturated (energyf x) = true) /\
  (is_nan (energy x) = true \/ is_nan (energyf x) = true -> is_number x = false).
Proof.
  destruct (is_number x) eqn:Hx.
  - pose proof (energy_sign x Hx) as H1. pose proof (energyf_sign x Hx) as H2.
    pose proof (has_sign_false_nonneg _ H1) as L1.
    pose proof (has_sign_false_nonneg _ H2) as L2.
    split; [now apply fle_0_not_negative|].
    split; [now apply fle_0_not_negative|].
    split; [now split|]. split; [discriminate|].
    rewrite (has_sign_number _ _ H1), (has_sign_number _ _ H2).
    intros [H|H]; discriminate.
  - assert (S1 : is_saturated (energy x) = true)
      by (destruct (energy_nan x Hx) as [E|E]; now rewrite E).
    assert (S2 : is_saturated (energyf x) = true)
      by (destruct (energyf_nan x Hx) as [E|E]; now rewrite E).
    split; [now apply is_saturated_not_negative|].
    split; [now apply is_saturated_not_negative|].
    split; [discriminate|]. split; [now split | reflexivity].
Qed.

(** A sample whose square overflows has energy +infinity. *)
Example energy_overflow :
  energy x_2p64 = S754_infinity false /\ energyf x_2p64 = S754_infinity false.
Proof. split; reflexivity. Qed.

(** ** What the update depends on *)

Lemma energy_conjf (x : TC) : energy (conjf x) = energy x /\ energyf (conjf x) = energyf x.
Proof.
  rewrite !energy_conj_product, !energyf_conj_product.
  unfold conjf. cbn [re im].
  now rewrite double_of_float_opp, !conj_product_re_opp_r.
Qed.

Lemma energy_cneg (x : TC) : energy (cneg x) = energy x /\ energyf (cneg x) = energyf x.
Proof.
  rewrite !energy_conj_product, !energyf_conj_product.
  unfold cneg. cbn [re im].
  now rewrite !double_of_float_opp, !conj_product_re_opp_l, !conj_product_re_opp_r.
Qed.

Lemma energy_cmul_i (x : TC) :
  energy (cmul_i x) = energy x /\ energyf (cmul_i x) = energyf x.
Proof.
  rewrite !energy_conj_product, !energyf_conj_product.
  unfold cmul_i. cbn [re im].
  rewrite double_of_float_opp, !conj_product_re_opp_l.
  split; [f_equal|]; apply conj_product_re_comm.
Qed.

Section Dependence.

Variable logf expf : T -> T.

(** The new state depends on the sample through its energy only. *)
Lemma agc_execute_state_energy (q : agc_s) (x x' : TC) :
  energy x = energy x' -> energyf x = energyf x' ->
  fst (agc_execute logf expf q x) = fst (agc_execute logf expf q x').
Proof.
  intros H1 H2. unfold agc_execute.
  destruct (negb (is_locked q =? 0)); [reflexivity|]. cbv zeta. cbn [fst].
  f_equal. unfold agc_estimate_gain, agc_estimate_gain_default,
    agc_estimate_gain_log, agc_estimate_gain_exp. cbv zeta.
  rewrite !energy_conj, !energyf_conjf, H1, H2. reflexivity.
Qed.

(** X3. The object after [agc_execute] is the same for a sample, its
    conjugate, its opposite and its product by i: the gain adapts to the
    energy of the sample, not to its phase. *)
Theorem agc_execute_phase_blind (q : agc_s) (x : TC) :
  fst (agc_execute logf expf q (conjf x)) = fst (agc_execute logf expf q x) /\
  fst (agc_execute logf expf q (cneg x)) = fst (agc_execute logf expf q x) /\
  fst (agc_execute logf expf q (cmul_i x)) = fst (agc_execute logf expf q x).
Proof.
  repeat split; apply agc_execute_state_energy;
    first [apply energy_conjf | apply energy_cneg | apply energy_cmul_i].
Qed.

End Dependence.

Example agc_execute_phase_blind_3_4i :
  fst (agc_execute logf0 expf0 (q_half LIQUID_AGC_DEFAULT) (cmul_i x_3_4i))
  = fst (agc_execute logf0 expf0 (q_half LIQUID_AGC_DEFAULT) x_3_4i) /\
  snd (agc_execute logf0 expf0 (q_half LIQUID_AGC_DEFAULT) (cmul_i x_3_4i))
  <> snd (agc_execute logf0 expf0 (q_half LIQUID_AGC_DEFAULT) x_3_4i).
Proof. split; [reflexivity | vm_compute; discriminate]. Qed.

(** ** What [agc_execute] writes and returns *)

Section Footprint.

Variable logf expf : T -> T.

Lemma agc_limit_gain_fields (q : agc_s) :
  agc_limit_gain q = set_g q (g (agc_limit_gain q)).
Proof.
  unfold agc_limit_gain.
  destruct (flt (g_max q) (g q)); [reflexivity|].
  destruct (flt (g q) (g_min q)); [reflexivity|].
  destruct q; reflexivity.
Qed.

Lemma agc_execute_config (q : agc_s) (x : TC) :
  let q' := fst (agc_execute logf expf q x) in
  type q' = type q /\ e_target q' = e_target q /\
  g_min q' = g_min q /\ g_max q' = g_max q /\
  BT q' = BT q /\ alpha q' = alpha q /\ beta q' = beta q /\
  is_locked q' = is_locked q.
Proof.
  cbv zeta. unfold agc_execute.
  destruct (negb (is_locked q =? 0)); [repeat split|]. cbv zeta. cbn [fst].
  rewrite agc_limit_gain_fields. unfold set_g.
  cbn [type e_target g_min g_max BT alpha beta is_locked].
  apply agc_estimate_gain_frame.
Qed.

(** X4. [agc_execute] writes [g], [e], [e_hat] and [e_prime] only: the
    law, the target, the gain limits, the bandwidth with [alpha] and
    [beta], and the lock are after the call what they were before it,
    for every object, locked or not, and every sample. *)
Theorem agc_execute_frame (q : agc_s) (x : TC) :
  let q' := fst (agc_execute logf expf q x) in
  type q' = type q /\ e_target q' = e_target q /\
  g_min q' = g_min q /\ g_max q' = g_max q /\
  BT q' = BT q /\ alpha q' = alpha q /\ beta q' = beta q /\
  is_locked q' = is_locked q.
Proof. exact (agc_execute_config q x). Qed.

End Footprint.

(** ** Clamping *)

(** X5. [agc_limit_gain] writes [g] only and leaves a gain within the
    limits where it is; with limits that [agc_set_gain_limits] accepts
    (not [g_min > g_max]) a second clamping changes nothing. *)
Theorem agc_limit_gain_idempotent (q : agc_s) :
  flt (g_max q) (g_min q) = false ->
  agc_limit_gain (agc_limit_gain q) = agc_limit_gain q /\
  agc_limit_gain q = set_g q (g (agc_limit_gain q)) /\
  (in_limits q = true -> agc_limit_gain q = q).
Proof.
  intros Hv. split; [|split].
  - unfold agc_limit_gain.
    destruct (flt (g_max q) (g q)) eqn:H1.
    + fields. now rewrite flt_irrefl, Hv.
    + destruct (flt (g q) (g_min q)) eqn:H2.
      * fields. now rewrite Hv, flt_irrefl.
      * now rewrite H1, H2.
  - apply agc_limit_gain_fields.
  - unfold in_limits. intros H. apply andb_prop in H. destruct H as [Hlo Hhi].
    unfold agc_limit_gain.
    now rewrite (fle_not_flt _ _ Hhi), (fle_not_flt _ _ Hlo).
Qed.

Lemma agc_limit_gain_idempotent_witness :
  flt (g_max q_created) (g_min q_created) = false /\
  agc_limit_gain (agc_limit_gain q_created) = agc_limit_gain q_created /\
  agc_limit_gain q_created = set_g q_created (g (agc_limit_gain q_created)) /\
  (in_limits q_created = true -> agc_limit_gain q_created = q_created).
Proof.
  split; [reflexivity|]. apply (agc_limit_gain_idempotent q_created). reflexivity.
Defined.

(** With [g_min > g_max], which only a direct write of the fields can
    produce, the first clamping of 5 into "[3, 2]" gives 2 and the second
    gives 3. *)
Example agc_limit_gain_crossed_limits :
  g (agc_limit_gain (mk_agc LIQUID_AGC_LOG f_1 (float_of_Z 5) f_3 f_2 f_0 f_0 f_1
                            f_1 f_1 f_1 0)) = f_2 /\
  g (agc_limit_gain (agc_limit_gain
       (mk_agc LIQUID_AGC_LOG f_1 (float_of_Z 5) f_3 f_2 f_0 f_0 f_1
               f_1 f_1 f_1 0))) = f_3.
Proof. split; reflexivity. Qed.

(** ** What no call repairs *)

Section Poison.

Variable logf expf : T -> T.

Lemma agc_limit_gain_nan (q : agc_s) :
  is_nan (g q) = true -> agc_limit_gain q = q.
Proof.
  intros H. unfold agc_limit_gain, flt, SFltb.
  now rewrite (SFcompare_nan_r _ _ H), (SFcompare_nan_l _ (g_min q) H).
Qed.

Lemma agc_estimate_gain_nan (q : agc_s) (x : TC) :
  is_nan (g q) = true -> is_nan (g (agc_estimate_gain logf expf q x)) = true.
Proof.
  destruct q. cbn [g]. destruct g0; try discriminate. intros _.
  unfold agc_estimate_gain, agc_estimate_gain_default, agc_estimate_gain_log,
    agc_estimate_gain_exp. cbv zeta. fields.
  destruct type0; fields.
  - now rewrite fmul_nan_r.
  - reflexivity.
  - destruct (flt _ _); reflexivity.
Qed.

Lemma agc_step_nan_gain (q q' : agc_s) (c : agc_call) :
  is_nan (g q) = true -> agc_step logf expf q c = Done q' -> is_nan (g q') = true.
Proof.
  intros Hg. destruct c as [|t|lo hi|b| | |x]; simpl.
  - now intros [= <-].
  - unfold agc_set_target. destruct (fle t f_0); [discriminate|]. now intros [= <-].
  - unfold agc_set_gain_limits. destruct (flt hi lo); [discriminate|]. now intros [= <-].
  - unfold agc_set_bandwidth. destruct (flt b f_0); [discriminate|].
    destruct (flt f_1 b); [discriminate|]. now intros [= <-].
  - now intros [= <-].
  - now intros [= <-].
  - intros [= <-]. unfold agc_execute.
    destruct (negb (is_locked q =? 0)); [exact Hg|]. cbv zeta. cbn [fst].
    pose proof (agc_estimate_gain_nan q x Hg) as H.
    now rewrite (agc_limit_gain_nan _ H).
Qed.

(** X6. A NaN gain is permanent: once [g] is a NaN, it is a NaN after
    every sequence of calls that returns, whatever the law, the samples
    and the arguments; [agc_reset] does not touch it and no setter
    writes it. *)
Theorem agc_nan_gain_permanent (cs : list agc_call) :
  forall q q', is_nan (g q) = true -> agc_run logf expf q cs = Done q' ->
               is_nan (g q') = true.
Proof.
  induction cs as [|c cs IH]; intros q q' Hq; simpl.
  - now intros [= <-].
  - destruct (agc_step logf expf q c) as [q1|] eqn:Hs; simpl; [|discriminate].
    apply IH. exact (agc_step_nan_gain q q1 c Hq Hs).
Qed.

Lemma smoothing_saturated (x : TC) (ep : T) :
  is_saturated ep = true ->
  is_saturated (fadd (fmul (energy x) f_zeta) (fmul ep (fsub f_1 f_zeta))) = true.
Proof.
  intros Hep. destruct ep as [s|s| |s m ex]; try discriminate.
  - destruct s; [discriminate|].
    change (fmul (S754_infinity false) (fsub f_1 f_zeta)) with (S754_infinity false).
    destruct (energy_sign_or_nan x) as [E|E].
    + now rewrite E.
    + pose proof (fmul_zeta_rounded _ E) as H.
      destruct (fmul (energy x) f_zeta) as [t|t| |t n f]; simpl in H;
        try contradiction; [subst t | subst t | destruct H as [-> _]];
        reflexivity.
  - change (fmul S754_nan (fsub f_1 f_zeta)) with S754_nan.
    now rewrite fadd_nan_r.
Qed.

Lemma agc_step_e_prime_no_reset (q q' : agc_s) (c : agc_call) :
  call_is_reset c = false -> agc_step logf expf q c = Done q' ->
  e_prime q' = e_prime q \/
  exists x, e_prime q'
            = fadd (fmul (energy x) f_zeta) (fmul (e_prime q) (fsub f_1 f_zeta)).
Proof.
  intros Hc. destruct c as [|t|lo hi|b| | |x]; try discriminate; simpl.
  - unfold agc_set_target. destruct (fle t f_0); [discriminate|].
    intros [= <-]. now left.
  - unfold agc_set_gain_limits. destruct (flt hi lo); [discriminate|].
    intros [= <-]. now left.
  - unfold agc_set_bandwidth. destruct (flt b f_0); [discriminate|].
    destruct (flt f_1 b); [discriminate|]. intros [= <-]. now left.
  - intros [= <-]. now left.
  - intros [= <-]. now left.
  - intros [= <-]. rewrite agc_execute_e_prime.
    destruct (negb (is_locked q =? 0)); [now left|].
    destruct (type q); [right; now exists x | right; now exists x | now left].
Qed.

(** X7. The energy filter does not come back from an overflow: once
    [e_prime] is +infinity or NaN, it is +infinity or NaN after every
    sequence of calls that returns and has no [agc_reset] in it. *)
Theorem agc_filter_saturated (cs : list agc_call) :
  forall q q',
    is_saturated (e_prime q) = true ->
    forallb (fun c => negb (call_is_reset c)) cs = true ->
    agc_run logf expf q cs = Done q' ->
    is_saturated (e_prime q') = true.
Proof.
  induction cs as [|c cs IH]; intros q q' Hq; simpl.
  - now intros _ [= <-].
  - intros Hcs. apply andb_prop in Hcs. destruct Hcs as [Hc Hcs].
    apply negb_true_iff in Hc.
    destruct (agc_step logf expf q c) as [q1|] eqn:Hs; simpl; [|discriminate].
    apply IH; [|exact Hcs].
    destruct (agc_step_e_prime_no_reset q q1 c Hc Hs) as [->|[x ->]];
      [exact Hq | now apply smoothing_saturated].
Qed.

End Poison.

(** One sample 2^64 on a new object: the energy 2^128 is no [float], the
    filter memory becomes +infinity, and stays so over the samples 0 and
    3+4i that follow. *)
Lemma agc_filter_saturated_witness :
  is_saturated (e_prime (fst (agc_execute logf0 expf0 q_created x_2p64))) = true /\
  forallb (fun c => negb (call_is_reset c))
          [call_execute x_0; call_set_bandwidth f_0_5; call_execute x_3_4i] = true /\
  agc_run logf0 expf0 (fst (agc_execute logf0 expf0 q_created x_2p64))
          [call_execute x_0; call_set_bandwidth f_0_5; call_execute x_3_4i]
  = Done (fst (agc_execute logf0 expf0
                 (set_beta (set_alpha (set_BT
                    (fst (agc_execute logf0 expf0
                            (fst (agc_execute logf0 expf0 q_created x_2p64)) x_0))
                    f_0_5) (fsqrt f_0_5)) (fsub f_1 (fsqrt f_0_5))) x_3_4i)) /\
  is_saturated (e_prime (fst (agc_execute logf0 expf0
                 (set_beta (set_alpha (set_BT
                    (fst (agc_execute logf0 expf0
                            (fst (agc_execute logf0 expf0 q_created x_2p64)) x_0))
                    f_0_5) (fsqrt f_0_5)) (fsub f_1 (fsqrt f_0_5))) x_3_4i))) = true.
Proof.
  split; [reflexivity|]. split; [reflexivity|]. split; [reflexivity|].
  apply (agc_filter_saturated logf0 expf0
           [call_execute x_0; call_set_bandwidth f_0_5; call_execute x_3_4i]
           (fst (agc_execute logf0 expf0 q_created x_2p64))); reflexivity.
Defined.

(** The gain is a NaN after a NaN sample under the Default law, and
    after [agc_reset] and further samples still. *)
Lemma agc_nan_gain_permanent_witness :
  is_nan (g (fst (agc_execute logf0 expf0 (q_half LIQUID_AGC_DEFAULT) x_nan))) = true /\
  agc_run logf0 expf0 (fst (agc_execute logf0 expf0 (q_half LIQUID_AGC_DEFAULT) x_nan))
          [call_reset; call_execute x_3_4i]
  = Done (fst (agc_execute logf0 expf0
                 (agc_reset (fst (agc_execute logf0 expf0
                                    (q_half LIQUID_AGC_DEFAULT) x_nan))) x_3_4i)) /\
  is_nan (g (fst (agc_execute logf0 expf0
                 (agc_reset (fst (agc_execute logf0 expf0
                                    (q_half LIQUID_AGC_DEFAULT) x_nan))) x_3_4i))) = true.
Proof.
  split; [reflexivity|]. split; [reflexivity|].
  apply (agc_nan_gain_permanent logf0 expf0 [call_reset; call_execute x_3_4i]
           (fst (agc_execute logf0 expf0 (q_half LIQUID_AGC_DEFAULT) x_nan)));
    reflexivity.
Defined.

(** ** Invariants of the configuration *)

Section Configuration.

Variable logf expf : T -> T.

Lemma agc_step_config_ok (q q' : agc_s) (c : agc_call) :
  agc_config_ok q -> agc_step logf expf q c = Done q' -> agc_config_ok q'.
Proof.
  unfold agc_config_ok. intros (Ht & Hl & Hb0 & Hb1 & Ha & Hb).
  destruct c as [|t|lo hi|b| | |x]; simpl.
  - intros [= <-]. now repeat split.
  - unfold agc_set_target. destruct (fle t f_0) eqn:E; [discriminate|].
    intros [= <-]. now repeat split.
  - unfold agc_set_gain_limits. destruct (flt hi lo) eqn:E; [discriminate|].
    intros [= <-]. now repeat split.
  - unfold agc_set_bandwidth. destruct (flt b f_0) eqn:E0; [discriminate|].
    destruct (flt f_1 b) eqn:E1; [discriminate|].
    intros [= <-]. now repeat split.
  - intros [= <-]. now repeat split.
  - intros [= <-]. now repeat split.
  - intros [= <-].
    destruct (agc_execute_config logf expf q x)
      as (_ & -> & -> & -> & -> & -> & -> & _).
    now repeat split.
Qed.

Lemma agc_run_config_ok (cs : list agc_call) :
  forall q q', agc_config_ok q -> agc_run logf expf q cs = Done q' ->
               agc_config_ok q'.
Proof.
  induction cs as [|c cs IH]; intros q q' Hq; simpl.
  - now intros [= <-].
  - destruct (agc_step logf expf q c) as [q1|] eqn:Hs; simpl; [|discriminate].
    apply IH. exact (agc_step_config_ok q q1 c Hq Hs).
Qed.

(** X8. On every object built by [agc_create] and on every object a
    sequence of calls leaves: the target is not [<= 0], the limits are
    not crossed ([g_min > g_max] is false), the bandwidth is neither
    [< 0] nor [> 1], and [alpha] is [sqrtf(BT)] and [beta] is
    [1 - alpha]. *)
Theorem agc_config_invariant :
  (forall mem q, agc_create mem = Done q -> agc_config_ok q) /\
  (forall q cs q', agc_config_ok q -> agc_run logf expf q cs = Done q' ->
                   agc_config_ok q').
Proof.
  split.
  - intros mem q. rewrite agc_create_done. intros [= <-].
    unfold agc_config_ok. now repeat split.
  - intros q cs q'. apply agc_run_config_ok.
Qed.

Lemma agc_step_log_law (q q' : agc_s) (c : agc_call) :
  type q = LIQUID_AGC_LOG /\ e_hat q = fsqrt (e_prime q) ->
  agc_step logf expf q c = Done q' ->
  type q' = LIQUID_AGC_LOG /\ e_hat q' = fsqrt (e_prime q').
Proof.
  intros [Ht He]. destruct c as [|t|lo hi|b| | |x]; simpl.
  - intros [= <-]. now split.
  - unfold agc_set_target. destruct (fle t f_0); [discriminate|]. now intros [= <-].
  - unfold agc_set_gain_limits. destruct (flt hi lo); [discriminate|]. now intros [= <-].
  - unfold agc_set_bandwidth. destruct (flt b f_0); [discriminate|].
    destruct (flt f_1 b); [discriminate|]. now intros [= <-].
  - now intros [= <-].
  - now intros [= <-].
  - intros [= <-]. unfold agc_execute.
    destruct (negb (is_locked q =? 0)); [now split|]. cbv zeta. cbn [fst].
    rewrite agc_limit_gain_fields. unfold set_g. cbn [type e_hat e_prime].
    unfold agc_estimate_gain. rewrite Ht.
    destruct q. unfold agc_estimate_gain_log. cbv zeta. fields. now split.
Qed.

(** X9. Every object reached from [agc_create] runs the Logarithmic law
    (no call writes [type]), and its [e_hat] is always the square root
    of its [e_prime]. *)
Theorem agc_created_log_law (mem q : agc_s) (cs : list agc_call) (q' : agc_s) :
  agc_create mem = Done q -> agc_run logf expf q cs = Done q' ->
  type q' = LIQUID_AGC_LOG /\ e_hat q' = fsqrt (e_prime q').
Proof.
  rewrite agc_create_done. intros [= <-].
  set (q0 := mk_agc _ _ _ _ _ _ _ _ _ _ _ _).
  assert (H0 : type q0 = LIQUID_AGC_LOG /\ e_hat q0 = fsqrt (e_prime q0))
    by (split; reflexivity).
  clearbody q0. revert q0 H0.
  induction cs as [|c cs IH]; intros q0 H0; simpl.
  - now intros [= <-].
  - destruct (agc_step logf expf q0 c) as [q1|] eqn:Hs; simpl; [|discriminate].
    apply IH. exact (agc_step_log_law q0 q1 c H0 Hs).
Qed.

End Configuration.

Lemma agc_created_log_law_witness :
  agc_create mem0 = Done q_created /\
  agc_run logf0 expf0 q_created
          [call_set_bandwidth f_0_5; call_execute x_3_4i; call_reset]
  = Done (agc_reset (fst (agc_execute logf0 expf0 (q_half LIQUID_AGC_LOG) x_3_4i))) /\
  type (agc_reset (fst (agc_execute logf0 expf0 (q_half LIQUID_AGC_LOG) x_3_4i)))
  = LIQUID_AGC_LOG /\
  e_hat (agc_reset (fst (agc_execute logf0 expf0 (q_half LIQUID_AGC_LOG) x_3_4i)))
  = fsqrt (e_prime (agc_reset (fst (agc_execute logf0 expf0
                                      (q_half LIQUID_AGC_LOG) x_3_4i)))).
Proof.
  split; [reflexivity|]. split; [reflexivity|].
  apply (agc_created_log_law logf0 expf0 mem0 q_created
           [call_set_bandwidth f_0_5; call_execute x_3_4i; call_reset]);
    reflexivity.
Defined.

(** ** Validation and NaN *)

Lemma fdiv_nan_l (x : T) : fdiv S754_nan x = S754_nan.
Proof. reflexivity. Qed.

(** X10. A NaN argument passes every validation, since a comparison with
    NaN is false: [agc_set_target] stores a NaN target,
    [agc_set_gain_limits] stores a NaN limit beside any other limit, and
    [agc_set_bandwidth] stores NaN in [BT], [alpha] and [beta]; after
    that the next [agc_execute] of an unlocked object under the Default
    or the Exponential law leaves a NaN gain. *)
Theorem agc_setters_accept_nan (q : agc_s) (v : T) :
  agc_set_target q S754_nan = Done (set_e_target q S754_nan) /\
  agc_set_gain_limits q S754_nan v = Done (set_g_max (set_g_min q S754_nan) v) /\
  agc_set_gain_limits q v S754_nan = Done (set_g_max (set_g_min q v) S754_nan) /\
  agc_set_bandwidth q S754_nan
  = Done (mk_agc (type q) (e_target q) (g q) (g_min q) (g_max q)
                 S754_nan S754_nan S754_nan
                 (e q) (e_hat q) (e_prime q) (is_locked q)) /\
  (forall logf expf x,
     is_locked q = 0 -> type q <> LIQUID_AGC_LOG ->
     is_nan (g (fst (agc_execute logf expf
                       (mk_agc (type q) (e_target q) (g q) (g_min q) (g_max q)
                               S754_nan S754_nan S754_nan
                               (e q) (e_hat q) (e_prime q) (is_locked q)) x)))
     = true).
Proof.
  split; [reflexivity|].
  split; [destruct v; reflexivity|].
  split; [destruct v; reflexivity|].
  split; [reflexivity|].
  intros logf expf x Hl Ht. unfold agc_execute. cbn [is_locked]. rewrite Hl.
  simpl negb. cbv iota zeta. cbn [fst].
  match goal with
  | |- is_nan (g (agc_limit_gain ?q1)) = true =>
      assert (H : is_nan (g q1) = true); [|now rewrite (agc_limit_gain_nan _ H)]
  end.
  unfold agc_estimate_gain, agc_estimate_gain_default, agc_estimate_gain_exp.
  cbv zeta. cbn [type]. destruct (type q); [| contradiction |]; fields.
  - reflexivity.
  - destruct (flt _ _); rewrite fmul_nan_l, fdiv_nan_l;
      [change (fsub f_1 S754_nan) with S754_nan
      |change (fadd f_1 S754_nan) with S754_nan];
      now rewrite fmul_nan_r.
Qed.

(** ** Lock, unlock and reset *)

Section Lock.

Variable logf expf : T -> T.

(** X11. Between [agc_lock] and [agc_unlock] no run of samples changes
    the object: after the unlock it is what [agc_unlock] alone would have
    left, the very object when it was unlocked before.  The last of
    lock, unlock and reset decides the flag, and a reset makes an
    earlier lock or reset void. *)
Theorem agc_lock_freezes (q : agc_s) (xs : list TC) :
  agc_unlock (agc_execute_all logf expf (agc_lock q) xs) = agc_unlock q /\
  (is_locked q = 0 ->
   agc_unlock (agc_execute_all logf expf (agc_lock q) xs) = q) /\
  agc_lock (agc_lock q) = agc_lock q /\
  agc_lock (agc_unlock q) = agc_lock q /\
  agc_unlock (agc_lock q) = agc_unlock q /\
  agc_reset (agc_lock q) = agc_reset q /\
  agc_reset (agc_reset q) = agc_reset q /\
  agc_unlock (agc_reset q) = agc_reset q.
Proof.
  assert (H : agc_execute_all logf expf (agc_lock q) xs = agc_lock q)
    by (apply agc_execute_all_locked; simpl; discriminate).
  rewrite H. repeat split.
  intros Hl. destruct q. simpl in Hl. subst. reflexivity.
Qed.

End Lock.

(** ** The setters together *)

(** X12. The three setters write disjoint fields: two of them in either
    order return the same object, when they return; and a setter called
    twice keeps the values of the second call. *)
Theorem agc_setters_commute (q q' : agc_s) (t b lo hi : T) :
  ((q1 <- agc_set_target q t ;; agc_set_bandwidth q1 b) = Done q' <->
   (q1 <- agc_set_bandwidth q b ;; agc_set_target q1 t) = Done q') /\
  ((q1 <- agc_set_target q t ;; agc_set_gain_limits q1 lo hi) = Done q' <->
   (q1 <- agc_set_gain_limits q lo hi ;; agc_set_target q1 t) = Done q') /\
  ((q1 <- agc_set_bandwidth q b ;; agc_set_gain_limits q1 lo hi) = Done q' <->
   (q1 <- agc_set_gain_limits q lo hi ;; agc_set_bandwidth q1 b) = Done q') /\
  (forall t0, agc_set_target q t0 <> Exit (-1) q ->
     (q1 <- agc_set_target q t0 ;; agc_set_target q1 t) = Done q' <->
     agc_set_target q t = Done q') /\
  (forall b0, agc_set_bandwidth q b0 <> Exit (-1) q ->
     (q1 <- agc_set_bandwidth q b0 ;; agc_set_bandwidth q1 b) = Done q' <->
     agc_set_bandwidth q b = Done q') /\
  (forall lo0 hi0, agc_set_gain_limits q lo0 hi0 <> Exit (-1) q ->
     (q1 <- agc_set_gain_limits q lo0 hi0 ;; agc_set_gain_limits q1 lo hi) = Done q' <->
     agc_set_gain_limits q lo hi = Done q').
Proof.
  unfold agc_set_target, agc_set_bandwidth, agc_set_gain_limits, InvalidParameter.
  repeat split; intros; revert H;
    repeat match goal with
           | |- context [if ?c then _ else _] => destruct c; simpl
           end;
    try discriminate; try tauto; try congruence.
Qed.

(** ** Construction, again *)

(** X13. [agc_create] never exits, whatever the block [malloc] returned:
    the two validations of its own constants pass.  The new object runs
    the Logarithmic law, unlocked, with target 1, gain 1 within the
    limits 1e-6 and 1e+6, bandwidth 0 and so [alpha = 0], [beta = 1],
    and filter state 1; the field [e] alone is not initialised and holds
    what the block held. *)
Theorem agc_create_defaults (mem : agc_s) :
  agc_create mem
  = Done (mk_agc LIQUID_AGC_LOG f_1 f_1 f_1em6 f_1ep6 f_0 f_0 f_1 (e mem) f_1 f_1 0) /\
  (forall q, agc_create mem = Done q ->
     e q = e mem /\ in_limits q = true /\
     agc_get_gain q = f_1 /\ agc_get_signal_level q = f_1 /\
     alpha q = fsqrt (BT q) /\ beta q = fsub f_1 (alpha q)).
Proof.
  split; [apply agc_create_done|].
  intros q. rewrite agc_create_done. intros [= <-]. repeat split.
Qed.

(** ** The loop coefficients *)

Lemma unit_float_bounds (x : T) :
  unit_float x -> fle f_0 x = true /\ fle x f_1 = true.
Proof.
  destruct x as [s|s| |[] m ex]; simpl; try contradiction.
  - intros _. split; reflexivity.
  - intros [[He _]|E].
    + split; [reflexivity|]. unfold fle, SFleb, f_1, SFcompare.
      destruct (Z.compare_spec ex (-23)); try lia; reflexivity.
    + inversion E. subst. split; reflexivity.
Qed.

Lemma Zdigits2_le (m k : Z) : 0 < m -> m < 2 ^ k -> 0 <= k -> Zdigits2 m <= k.
Proof.
  intros Hm Hk Hk0. destruct m as [|p|p]; try lia. simpl.
  pose proof (digits2_pos_bounds p) as [Hlo _].
  destruct (Z_le_gt_dec (Z.pos (digits2_pos p)) k) as [H|H]; [exact H|].
  exfalso. assert (2 ^ k <= 2 ^ (Z.pos (digits2_pos p) - 1))
    by (apply Z.pow_le_mono_r; lia). lia.
Qed.

(** Shifting to the canonical exponent keeps a mantissa below [2^-e]
    below it. *)
Lemma shr_fexp_below_one (m e : Z) (l : location) :
  0 <= m -> e <= -24 -> m < 2 ^ (- e) ->
  let r := shr_fexp prec32 emax32 m e l in
  snd r <= -24 /\ 0 <= shr_m (fst r) < 2 ^ (- snd r).
Proof.
  intros Hm He Hb. cbv zeta.
  assert (Hd : Zdigits2 m <= - e).
  { destruct (Z.eq_dec m 0) as [->|]; [simpl; lia|].
    apply Zdigits2_le; lia. }
  unfold shr_fexp, shr.
  destruct (fexp prec32 emax32 (Zdigits2 m + e) - e) as [|p|p] eqn:En;
    cbn [fst snd];
    rewrite ?iter_shr_1_m by (rewrite shr_record_of_loc_m; exact Hm);
    rewrite shr_record_of_loc_m.
  - lia.
  - unfold fexp, emin, prec32, emax32 in En.
    assert (Hp : 0 < 2 ^ Z.pos p) by (apply Z.pow_pos_nonneg; lia).
    split; [lia|]. split; [apply Z.div_pos; lia|].
    apply Z.div_lt_upper_bound; [exact Hp|].
    rewrite <- Z.pow_add_r by lia.
    replace (Z.pos p + - (e + Z.pos p)) with (- e) by lia. exact Hb.
  - lia.
Qed.

Lemma round_nearest_even_le (m : Z) (l : location) :
  round_nearest_even m l <= m + 1.
Proof. destruct l as [|[]]; simpl; try destruct (Z.even m); lia. Qed.

(** Rounding a positive value below 1 gives at most 1. *)
Lemma binary_round_aux_below_one (m e : Z) (l : location) :
  0 <= m -> e <= -24 -> m < 2 ^ (- e) ->
  unit_float (binary_round_aux prec32 emax32 false m e l).
Proof.
  intros Hm He Hb. unfold binary_round_aux.
  pose proof (shr_fexp_below_one m e l Hm He Hb) as H1. cbv zeta in H1.
  destruct (shr_fexp prec32 emax32 m e l) as [mrs' e']. cbn [fst snd] in H1.
  destruct H1 as (He' & Hm1 & Hb1).
  set (m1 := round_nearest_even (shr_m mrs') (loc_of_shr_record mrs')).
  assert (Hm1' : 0 <= m1 <= 2 ^ (- e')).
  { pose proof (round_nearest_even_ge (shr_m mrs') (loc_of_shr_record mrs')).
    pose proof (round_nearest_even_le (shr_m mrs') (loc_of_shr_record mrs')).
    unfold m1. lia. }
  destruct (Z.eq_dec m1 (2 ^ (- e'))) as [E|NE].
  - (* rounded up to 1 *)
    assert (Hd : Zdigits2 m1 = - e' + 1).
    { rewrite E. assert (Hpos : 0 < 2 ^ (- e')) by (apply Z.pow_pos_nonneg; lia).
      destruct (2 ^ (- e')) as [|p|p] eqn:Ep; try lia. simpl.
      pose proof (digits2_pos_bounds p) as [Hlo Hhi]. rewrite <- Ep in Hlo, Hhi.
      apply Z.pow_lt_mono_r_iff in Hhi; try lia.
      apply Z.pow_le_mono_r_iff in Hlo; lia. }
    unfold shr_fexp, shr. rewrite Hd.
    replace (- e' + 1 + e') with 1 by lia.
    change (fexp prec32 emax32 1) with (-23).
    destruct (-23 - e') as [|p|p] eqn:En; try lia.
    cbv beta iota.
    rewrite iter_shr_1_m by (rewrite shr_record_of_loc_m; lia).
    rewrite shr_record_of_loc_m, E.
    replace (- e') with (23 + Z.pos p) by lia.
    rewrite Z.pow_add_r by lia.
    rewrite Z.div_mul by (apply Z.pow_nonzero; lia).
    change (2 ^ 23) with 8388608. cbv iota.
    replace (e' + Z.pos p) with (-23) by lia.
    change (-23 <=? emax32 - prec32) with true. cbv iota.
    unfold unit_float. right. reflexivity.
  - assert (Hlt : m1 < 2 ^ (- e')) by lia.
    pose proof (shr_fexp_below_one m1 e' loc_Exact (proj1 Hm1') He' Hlt) as H2.
    cbv zeta in H2.
    destruct (shr_fexp prec32 emax32 m1 e' loc_Exact) as [mrs'' e''].
    cbn [fst snd] in H2. destruct H2 as (He'' & Hm2 & Hb2).
    destruct (shr_m mrs'') as [|p|p]; try lia; [exact I|].
    replace (e'' <=? emax32 - prec32) with true
      by (symmetry; apply Z.leb_le; unfold emax32, prec32; lia).
    unfold unit_float. left. split; [exact He''|exact Hb2].
Qed.

(** The square root of a [float] in [0, 1] is in [0, 1]. *)
Lemma fsqrt_unit (x : T) :
  valid_binary prec32 emax32 x = true ->
  flt x f_0 = false -> flt f_1 x = false -> is_nan x = false ->
  unit_float (fsqrt x).
Proof.
  intros Hv H0 H1 Hn. destruct x as [s|s| |s m ex]; try discriminate.
  - exact I.
  - destruct s; discriminate.
  - destruct s; [discriminate|]. clear H0 Hn.
    simpl in Hv. unfold bounded, canonical_mantissa in Hv.
    apply andb_prop in Hv. destruct Hv as [Hc _]. apply Z.eqb_eq in Hc.
    unfold fexp, emin, prec32, emax32 in Hc.
    pose proof (digits2_pos_bounds m) as [Hlo Hhi].
    remember (Z.pos (digits2_pos m)) as d eqn:Ed.
    unfold flt, SFltb, f_1, SFcompare in H1.
    change (Pos.compare_cont Eq 8388608 m) with (Pos.compare 8388608 m) in H1.
    destruct (Z.compare_spec (-23) ex) as [E|L|G]; [| discriminate |].
    + (* the exponent of 1: the mantissa is that of 1 *)
      subst ex. assert (Hd : d = 24) by lia.
      assert (Hm : m = 8388608%positive).
      { destruct (Pos.compare_spec 8388608 m) as [E|L|G].
        - now symmetry.
        - discriminate.
        - rewrite Hd in Hlo. change (2 ^ (24 - 1)) with 8388608 in Hlo. lia. }
      rewrite Hm. unfold unit_float. right. reflexivity.
    + (* below 1 *)
      assert (Hd : d <= 24) by lia.
      unfold fsqrt, SFsqrt, SFsqrt_core_binary. cbn [Zdigits2]. rewrite <- Ed.
      set (e' := Z.min (fexp prec32 emax32 (Z.div2 (d + ex + 1))) (Z.div2 ex)).
      assert (He2 : 2 * Z.div2 ex <= ex).
      { rewrite Z.div2_div. pose proof (Z.mul_div_le ex 2). lia. }
      assert (He' : e' <= -24).
      { assert (Z.div2 (d + ex + 1) <= 0).
        { rewrite Z.div2_div. apply Z.lt_succ_r, Z.div_lt_upper_bound; lia. }
        unfold e', fexp, emin, prec32, emax32. lia. }
      assert (Hs : 0 <= ex - 2 * e') by (unfold e'; lia).
      set (m' := match ex - 2 * e' with
                 | Z.pos _ => Z.shiftl (Z.pos m) (ex - 2 * e')
                 | 0 => Z.pos m
                 | Z.neg _ => 0
                 end).
      assert (Hm' : m' = Z.pos m * 2 ^ (ex - 2 * e')).
      { unfold m'. destruct (ex - 2 * e') as [|p|p] eqn:Es.
        - simpl. lia.
        - now rewrite Z.shiftl_mul_pow2 by lia.
        - lia. }
      assert (Hmb : 0 < m' < 2 ^ (- e') * 2 ^ (- e')).
      { rewrite Hm'. split.
        - apply Z.mul_pos_pos; [lia|]. apply Z.pow_pos_nonneg; lia.
        - rewrite <- Z.pow_add_r by lia.
          replace (- e' + - e') with (- ex + (ex - 2 * e')) by lia.
          rewrite Z.pow_add_r by lia.
          apply Z.mul_lt_mono_pos_r; [apply Z.pow_pos_nonneg; lia|].
          apply Z.lt_le_trans with (2 ^ d); [exact Hhi|].
          apply Z.pow_le_mono_r; lia. }
      clearbody m'.
      pose proof (Z.sqrtrem_sqrt m') as Hq.
      destruct (Z.sqrtrem m') as [q r]. cbn [fst] in Hq. subst q.
      pose proof (Z.sqrt_spec m' (Z.lt_le_incl _ _ (proj1 Hmb))) as [Hq1 Hq2].
      apply binary_round_aux_below_one; [apply Z.sqrt_nonneg | exact He' |].
      assert (Hp : 0 < 2 ^ (- e')) by (apply Z.pow_pos_nonneg; lia).
      pose proof (Z.sqrt_nonneg m'). nia.
Qed.

Lemma Pos_iter_xO (m d : positive) :
  Z.pos (Pos.iter xO m d) = Z.pos m * 2 ^ Z.pos d.
Proof.
  induction d as [|d IH] using Pos.peano_ind.
  - simpl. lia.
  - rewrite Pos.iter_succ, Pos2Z.inj_xO, IH, Pos2Z.inj_succ, Z.pow_succ_r by lia.
    ring.
Qed.

(** One minus a [float] in [0, 1] is in [0, 1]. *)
Lemma fsub_1_unit (x : T) : unit_float x -> unit_float (fsub f_1 x).
Proof.
  destruct x as [s|s| |[] m ex]; simpl; try contradiction.
  - intros _. right. reflexivity.
  - intros [[He Hb]|E]; [|inversion E; subst; exact I].
    unfold fsub, f_1, SFsub. cbn [cond_Zopp].
    replace (Z.min (-23) ex) with ex by lia.
    assert (H1 : Z.pos (fst (shl_align 8388608 (-23) ex)) = 2 ^ (- ex)).
    { unfold shl_align. destruct (ex - -23) as [|p|p] eqn:Ed; try lia.
      cbn [fst]. rewrite Pos_iter_xO. change 8388608 with (2 ^ 23).
      rewrite <- Z.pow_add_r by lia. f_equal. lia. }
    assert (H2 : fst (shl_align m ex ex) = m).
    { unfold shl_align. now rewrite Z.sub_diag. }
    rewrite H1, H2.
    destruct (2 ^ (- ex) - Z.pos m) as [|z|z] eqn:Ez; try lia.
    cbn [binary_normalize]. unfold binary_round.
    pose proof (shl_align_exp z ex (fexp prec32 emax32 (Z.pos (digits2_pos z) + ex))) as Hse.
    assert (Hsm : Z.pos (fst (shl_align z ex (fexp prec32 emax32 (Z.pos (digits2_pos z) + ex))))
                  = Z.pos z * 2 ^ (ex - snd (shl_align z ex (fexp prec32 emax32 (Z.pos (digits2_pos z) + ex))))).
    { unfold shl_align.
      destruct (fexp prec32 emax32 (Z.pos (digits2_pos z) + ex) - ex) as [|p|p] eqn:Ed;
        cbn [fst snd].
      - rewrite Z.sub_diag. simpl. lia.
      - rewrite Z.sub_diag. simpl. lia.
      - rewrite Pos_iter_xO. f_equal. f_equal. lia. }
    destruct (shl_align z ex _) as [mz ez]. cbn [fst snd] in Hse, Hsm.
    apply binary_round_aux_below_one; [lia | lia |].
    rewrite Hsm.
    replace (- ez) with (- ex + (ex - ez)) by lia.
    rewrite Z.pow_add_r by lia.
    apply Z.mul_lt_mono_pos_r; [apply Z.pow_pos_nonneg; lia | lia].
Qed.

(** X14. For a bandwidth that is a value of [float] and not a NaN, a call
    of [agc_set_bandwidth] that returns leaves both loop coefficients in
    [0, 1]: [0 <= alpha <= 1] and [0 <= beta <= 1], rounding of the
    square root and of the difference included. *)
Theorem agc_set_bandwidth_unit_coefficients (q q' : agc_s) (b : T) :
  valid_binary prec32 emax32 b = true -> is_nan b = false ->
  agc_set_bandwidth q b = Done q' ->
  (fle f_0 (alpha q') = true /\ fle (alpha q') f_1 = true) /\
  (fle f_0 (beta q') = true /\ fle (beta q') f_1 = true).
Proof.
  intros Hv Hn. unfold agc_set_bandwidth.
  destruct (flt b f_0) eqn:H0; [discriminate|].
  destruct (flt f_1 b) eqn:H1; [discriminate|].
  intros [= <-]. fields.
  pose proof (fsqrt_unit b Hv H0 H1 Hn) as Ha.
  split; apply unit_float_bounds; [exact Ha | apply fsub_1_unit, Ha].
Qed.

Lemma agc_set_bandwidth_unit_coefficients_witness :
  valid_binary prec32 emax32 f_0_5 = true /\ is_nan f_0_5 = false /\
  agc_set_bandwidth q_created f_0_5 = Done (q_half LIQUID_AGC_LOG) /\
  (fle f_0 (alpha (q_half LIQUID_AGC_LOG)) = true /\
   fle (alpha (q_half LIQUID_AGC_LOG)) f_1 = true) /\
  (fle f_0 (beta (q_half LIQUID_AGC_LOG)) = true /\
   fle (beta (q_half LIQUID_AGC_LOG)) f_1 = true).
Proof.
  split; [reflexivity|]. split; [reflexivity|]. split; [reflexivity|].
  apply (agc_set_bandwidth_unit_coefficients q_created (q_half LIQUID_AGC_LOG) f_0_5);
    reflexivity.
Defined.

(** The largest [float] below 1 as bandwidth: [alpha] rounds to itself
    below 1, not up to 1, and [beta] is 2^-24. *)
Example agc_set_bandwidth_below_one :
  exists q', agc_set_bandwidth q_created (S754_finite false 16777215 (-24)) = Done q' /\
             alpha q' = S754_finite false 16777215 (-24) /\
             beta q' = S754_finite false 8388608 (-47).
Proof. eexists. repeat split. Qed.
